(** * Odd One Out (memory game): the round lifecycle of [App.js]

    A shallow embedding of the game logic of [src/my-react-app/src/App.js]:
    the number draw ([generateUniqueNumbers]), the round setup
    ([setupOddOneOutRound]) and the event handlers that drive the game state
    ([handleSubmitRecall], the Home buttons, ...).

    JavaScript arrays are objects with identity: the component keeps
    references to them in its React state, copies them with the spread
    syntax and sorts them in place.  They are modelled as locations of a
    heap, so that aliasing and copying are the ones of the source.
    [Math.random] is ambient state of the page: it is a component of the
    world that every call advances. *)

From stdpp Require Import base decidable option numbers list list_numbers
  strings pretty.

Local Open Scope Z_scope.

(** ** Numbers returned by [Math.random] *)

(** [Math.random()] returns a number [r] with [0 <= r < 1].  Such a number is
    kept as a fraction [numer / denom]; the two uses the source makes of it,
    [Math.floor(r * n)] and the sign of [0.5 - r], are computed exactly on
    the fraction.  The rounding of the product [r * n] to a double is left
    out: where it reaches an integer the source gets the next index or
    candidate.  Both stay within the same bounds, which is what the
    properties of the rounds rest on; only the lemmas on the termination of
    the loop name a candidate, and they speak of the exact product. *)
Record unit_float : Type := UnitFloat {
  numer : N;
  denom : positive;
  numer_lt_denom : (numer <? N.pos denom)%N = true
}.

(** [Math.floor(r * n)] *)
Definition floor_mul (r : unit_float) (n : Z) : Z :=
  (Z.of_N (numer r) * n) `div` Z.pos (denom r).

(** [0.5 - r], scaled by the positive factor [2 * denom r]: callers only look
    at its sign. *)
Definition half_minus (r : unit_float) : Z :=
  Z.pos (denom r) - 2 * Z.of_N (numer r).

(** ** The world: a heap of arrays and the state of [Math.random] *)

Definition loc := nat.

Record world : Type := World {
  heap : list (list Z);
  random : nat -> unit_float
}.

Definition Math_random (w : world) : unit_float * world :=
  (random w 0%nat, {| heap := heap w; random := fun n => random w (S n) |}).

(** A new array object: its reference is the next free location. *)
Definition alloc (a : list Z) (w : world) : loc * world :=
  (length (heap w), {| heap := heap w ++ [a]; random := random w |}).

Definition deref (l : loc) (w : world) : list Z :=
  default [] (heap w !! l).

Definition store (l : loc) (a : list Z) (w : world) : world :=
  {| heap := <[l := a]> (heap w); random := random w |}.

(** [[...arr]] *)
Definition spread (l : loc) (w : world) : loc * world :=
  alloc (deref l w) w.

(** ** Array operations used by the source *)

(** [a[i]]; [None] is [undefined]. *)
Definition index (a : list Z) (i : Z) : option Z :=
  if i <? 0 then None else a !! Z.to_nat i.

(** [a.includes(v)] *)
Definition includes (a : list Z) (v : Z) : bool := bool_decide (v ∈ a).

(** [a.indexOf(v)]: the first position of [v], or [-1]. *)
Fixpoint indexOf (a : list Z) (v : Z) : Z :=
  match a with
  | [] => -1
  | x :: rest =>
      if bool_decide (x = v) then 0
      else let k := indexOf rest v in if k <? 0 then -1 else k + 1
  end.

(** A relative start or end argument of [slice]: negative counts from the
    end, and the result is clamped to the array. *)
Definition relative_index (len k : Z) : Z :=
  if k <? 0 then Z.max (len + k) 0 else Z.min k len.

(** [a.slice(start, end)] *)
Definition slice (a : list Z) (start end_ : Z) : list Z :=
  let len := Z.of_nat (length a) in
  let k := relative_index len start in
  let final := relative_index len end_ in
  take (Z.to_nat (final - k)) (drop (Z.to_nat k) a).

(** [a[i] = v] on a dense array of numbers.  Inside the array the element is
    replaced, at [i = a.length] the array grows by one, a negative [i] is not
    an array index and leaves the elements alone.  Beyond [a.length] the
    array would get holes, which a list of numbers does not have: [None]. *)
Definition assign (a : list Z) (i v : Z) : option (list Z) :=
  if i <? 0 then Some a
  else if i <? Z.of_nat (length a) then Some (<[Z.to_nat i := v]> a)
  else if i =? Z.of_nat (length a) then Some (a ++ [v])
  else None.

(** [Array.from({ length: n }, (_, i) => i + 1)] *)
Definition Array_from_succ (n : Z) : list Z := (fun i => i + 1) <$> seqZ 0 n.

(** ** [Array.prototype.sort] *)

(** A compare function is called on two elements, may change the state [S]
    it runs in, and returns a number of which the sort looks at the sign. *)
Definition comparefn (S : Type) : Type := Z -> Z -> S -> Z * S.

(** The sequence of calls [sort] makes to its compare function is chosen by
    the JavaScript engine.  What the development relies on is stated here:
    the sorted array holds the elements it held before, and the engine learns
    about the state of the compare function only through the numbers it
    returns. *)
Class SortEngine : Type := {
  sort_by : forall {S : Type}, comparefn S -> list Z -> S -> list Z * S;
  sort_by_perm : forall (S : Type) (cmp : comparefn S) (a : list Z) (s : S),
    (sort_by cmp a s).1 ≡ₚ a;
  sort_by_rel : forall (S1 S2 : Type) (R : S1 -> S2 -> Prop)
      (cmp1 : comparefn S1) (cmp2 : comparefn S2),
    (forall x y s1 s2, R s1 s2 ->
       (cmp1 x y s1).1 = (cmp2 x y s2).1 /\ R (cmp1 x y s1).2 (cmp2 x y s2).2) ->
    forall a s1 s2, R s1 s2 ->
      (sort_by cmp1 a s1).1 = (sort_by cmp2 a s2).1 /\
      R (sort_by cmp1 a s1).2 (sort_by cmp2 a s2).2
}.

(** One engine: a stable insertion sort, the algorithm engines use on short
    arrays. *)
Module Insertion.

Fixpoint insert_by {S : Type} (cmp : comparefn S) (x : Z) (sorted : list Z)
    (s : S) : list Z * S :=
  match sorted with
  | [] => ([x], s)
  | y :: rest =>
      let '(c, s1) := cmp x y s in
      if c <? 0 then (x :: y :: rest, s1)
      else let '(rest', s2) := insert_by cmp x rest s1 in (y :: rest', s2)
  end.

Fixpoint sort_from {S : Type} (cmp : comparefn S) (pending sorted : list Z)
    (s : S) : list Z * S :=
  match pending with
  | [] => (sorted, s)
  | x :: pending' =>
      let '(sorted', s1) := insert_by cmp x sorted s in
      sort_from cmp pending' sorted' s1
  end.

Definition sort {S : Type} (cmp : comparefn S) (a : list Z) (s : S)
    : list Z * S :=
  sort_from cmp a [] s.

End Insertion.

(** ** Constants of the game *)

Definition BASE_SCORE_PER_CORRECT : Z := 20.
Definition TOTAL_SCORE_TO_WIN : Z := 100.
Definition NUMBER_POOL_MAX : Z := 100.

Section Draw.

Context `{SortEngine}.

(** [() => 0.5 - Math.random()] *)
Definition random_order : comparefn world :=
  fun _ _ w => let '(r, w') := Math_random w in (half_minus r, w').

(** [arr.sort(cmp)]: sorts the array at [l] in place and returns [l]. *)
Definition array_sort (cmp : comparefn world) (l : loc) (w : world)
    : loc * world :=
  let '(a', w') := sort_by cmp (deref l w) w in
  (l, store l a' w').

(** [generateUniqueNumbers(count)] *)
Definition generateUniqueNumbers (count : Z) (w : world) : loc * world :=
  let actualCount := Z.min count NUMBER_POOL_MAX in
  let '(allPossibleNumbers, w1) := alloc (Array_from_succ NUMBER_POOL_MAX) w in
  let '(shuffledNumbers, w2) := array_sort random_order allPossibleNumbers w1 in
  alloc (slice (deref shuffledNumbers w2) 0 actualCount) w2.

End Draw.

(** ** The state of the component *)

Module State.
(** The values of [gameState]. *)
Inductive t : Set :=
  | start | difficulty | number_selection | memorize_original
  | odd_one_out_recall | round_win | overall_win | game_over.
End State.

Inductive level : Set := easy | medium | hard.

(** The buttons a modal offers: [{ text, onClick }]. *)
Inductive action : Set := homeAction | tryAgainAction | nextRoundAction.

Definition action_text (a : action) : string :=
  match a with
  | homeAction => "Home"
  | tryAgainAction => "Try Again"
  | nextRoundAction => "Next Round"
  end.

(** One field per [useState] of [App]; [None] is [null], arrays are held by
    reference. *)
Record session : Type := Session {
  gameState : State.t;
  difficulty : option level;
  numTiles : option Z;
  originalGridNumbers : loc;
  currentGridNumbers : loc;
  preparedRecallNumbers : loc;
  changedTileIndex : option Z;
  selectedTileIndex : option Z;
  roundScore : Z;
  totalScore : Z;
  feedbackMessage : string;
  showModal : bool;
  modalMessage : string;
  modalActions : list action;
  countdown : Z
}.

Definition setGameState (v : State.t) (s : session) : session :=
  Session v (difficulty s) (numTiles s) (originalGridNumbers s)
    (currentGridNumbers s) (preparedRecallNumbers s) (changedTileIndex s)
    (selectedTileIndex s) (roundScore s) (totalScore s) (feedbackMessage s)
    (showModal s) (modalMessage s) (modalActions s) (countdown s).

Definition setDifficulty (v : option level) (s : session) : session :=
  Session (gameState s) v (numTiles s) (originalGridNumbers s)
    (currentGridNumbers s) (preparedRecallNumbers s) (changedTileIndex s)
    (selectedTileIndex s) (roundScore s) (totalScore s) (feedbackMessage s)
    (showModal s) (modalMessage s) (modalActions s) (countdown s).

Definition setNumTiles (v : option Z) (s : session) : session :=
  Session (gameState s) (difficulty s) v (originalGridNumbers s)
    (currentGridNumbers s) (preparedRecallNumbers s) (changedTileIndex s)
    (selectedTileIndex s) (roundScore s) (totalScore s) (feedbackMessage s)
    (showModal s) (modalMessage s) (modalActions s) (countdown s).

Definition setOriginalGridNumbers (v : loc) (s : session) : session :=
  Session (gameState s) (difficulty s) (numTiles s) v
    (currentGridNumbers s) (preparedRecallNumbers s) (changedTileIndex s)
    (selectedTileIndex s) (roundScore s) (totalScore s) (feedbackMessage s)
    (showModal s) (modalMessage s) (modalActions s) (countdown s).

Definition setCurrentGridNumbers (v : loc) (s : session) : session :=
  Session (gameState s) (difficulty s) (numTiles s) (originalGridNumbers s)
    v (preparedRecallNumbers s) (changedTileIndex s)
    (selectedTileIndex s) (roundScore s) (totalScore s) (feedbackMessage s)
    (showModal s) (modalMessage s) (modalActions s) (countdown s).

Definition setPreparedRecallNumbers (v : loc) (s : session) : session :=
  Session (gameState s) (difficulty s) (numTiles s) (originalGridNumbers s)
    (currentGridNumbers s) v (changedTileIndex s)
    (selectedTileIndex s) (roundScore s) (totalScore s) (feedbackMessage s)
    (showModal s) (modalMessage s) (modalActions s) (countdown s).

Definition setChangedTileIndex (v : option Z) (s : session) : session :=
  Session (gameState s) (difficulty s) (numTiles s) (originalGridNumbers s)
    (currentGridNumbers s) (preparedRecallNumbers s) v
    (selectedTileIndex s) (roundScore s) (totalScore s) (feedbackMessage s)
    (showModal s) (modalMessage s) (modalActions s) (countdown s).

Definition setSelectedTileIndex (v : option Z) (s : session) : session :=
  Session (gameState s) (difficulty s) (numTiles s) (originalGridNumbers s)
    (currentGridNumbers s) (preparedRecallNumbers s) (changedTileIndex s)
    v (roundScore s) (totalScore s) (feedbackMessage s)
    (showModal s) (modalMessage s) (modalActions s) (countdown s).

Definition setRoundScore (v : Z) (s : session) : session :=
  Session (gameState s) (difficulty s) (numTiles s) (originalGridNumbers s)
    (currentGridNumbers s) (preparedRecallNumbers s) (changedTileIndex s)
    (selectedTileIndex s) v (totalScore s) (feedbackMessage s)
    (showModal s) (modalMessage s) (modalActions s) (countdown s).

Definition setTotalScore (v : Z) (s : session) : session :=
  Session (gameState s) (difficulty s) (numTiles s) (originalGridNumbers s)
    (currentGridNumbers s) (preparedRecallNumbers s) (changedTileIndex s)
    (selectedTileIndex s) (roundScore s) v (feedbackMessage s)
    (showModal s) (modalMessage s) (modalActions s) (countdown s).

Definition setFeedbackMessage (v : string) (s : session) : session :=
  Session (gameState s) (difficulty s) (numTiles s) (originalGridNumbers s)
    (currentGridNumbers s) (preparedRecallNumbers s) (changedTileIndex s)
    (selectedTileIndex s) (roundScore s) (totalScore s) v
    (showModal s) (modalMessage s) (modalActions s) (countdown s).

Definition setShowModal (v : bool) (s : session) : session :=
  Session (gameState s) (difficulty s) (numTiles s) (originalGridNumbers s)
    (currentGridNumbers s) (preparedRecallNumbers s) (changedTileIndex s)
    (selectedTileIndex s) (roundScore s) (totalScore s) (feedbackMessage s)
    v (modalMessage s) (modalActions s) (countdown s).

Definition setModalMessage (v : string) (s : session) : session :=
  Session (gameState s) (difficulty s) (numTiles s) (originalGridNumbers s)
    (currentGridNumbers s) (preparedRecallNumbers s) (changedTileIndex s)
    (selectedTileIndex s) (roundScore s) (totalScore s) (feedbackMessage s)
    (showModal s) v (modalActions s) (countdown s).

Definition setModalActions (v : list action) (s : session) : session :=
  Session (gameState s) (difficulty s) (numTiles s) (originalGridNumbers s)
    (currentGridNumbers s) (preparedRecallNumbers s) (changedTileIndex s)
    (selectedTileIndex s) (roundScore s) (totalScore s) (feedbackMessage s)
    (showModal s) (modalMessage s) v (countdown s).

Definition setCountdown (v : Z) (s : session) : session :=
  Session (gameState s) (difficulty s) (numTiles s) (originalGridNumbers s)
    (currentGridNumbers s) (preparedRecallNumbers s) (changedTileIndex s)
    (selectedTileIndex s) (roundScore s) (totalScore s) (feedbackMessage s)
    (showModal s) (modalMessage s) (modalActions s) v.

(** The first render: every [useState([])] makes an empty array of its own. *)
Definition mount (w : world) : session * world :=
  let '(original, w) := alloc [] w in
  let '(current, w) := alloc [] w in
  let '(prepared, w) := alloc [] w in
  (Session State.start None None original current prepared None None 0 0
     EmptyString false EmptyString [] 0, w).

(** A number or [undefined] appended to a string. *)
Definition to_string (v : option Z) : string :=
  match v with
  | Some n => pretty n
  | None => "undefined"
  end.

(** ** Round setup *)

(** The local variables of [setupOddOneOutRound], as they stand when it
    returns. *)
Record round_locals : Type := RoundLocals {
  initialNumbers : loc;
  finalRecallNumbers : loc;
  originalIndexToChange : Z;
  newChangedValue : Z;
  shuffledFinalRecallNumbers : loc;
  finalChangedIndexInScrambled : Z
}.

Section Round.

Context `{SortEngine}.

(** The [do ... while] of the setup.  Each iteration draws one value; the
    loop has no bound in the source, so the model counts iterations down from
    [fuel] and returns [None] when none is left. *)
Fixpoint pick_changed_value (fuel : nat) (initialNumbers : loc)
    (originalIndexToChange : Z) (w : world) : option (Z * world) :=
  match fuel with
  | O => None
  | S fuel' =>
      let '(r, w1) := Math_random w in
      let newChangedValue := floor_mul r NUMBER_POOL_MAX + 1 in
      if includes (deref initialNumbers w1) newChangedValue
         || bool_decide (Some newChangedValue
                         = index (deref initialNumbers w1) originalIndexToChange)
      then pick_changed_value fuel' initialNumbers originalIndexToChange w1
      else Some (newChangedValue, w1)
  end.

(** [setupOddOneOutRound(count)].  The result is [None] when the loop runs
    out of [fuel] (or the assignment would leave a hole in the array). *)
Definition setupOddOneOutRound (fuel : nat) (count : Z) (s : session)
    (w : world) : option (round_locals * session * world) :=
  let s := setRoundScore 0 s in
  let s := setSelectedTileIndex None s in
  let '(initialNumbers, w) := generateUniqueNumbers count w in
  let '(original, w) := spread initialNumbers w in
  let s := setOriginalGridNumbers original s in
  let '(finalRecallNumbers, w) := spread initialNumbers w in
  let '(r, w) := Math_random w in
  let originalIndexToChange :=
    floor_mul r (Z.of_nat (length (deref initialNumbers w))) in
  '(newChangedValue, w) ←
    pick_changed_value fuel initialNumbers originalIndexToChange w;
  changed ←
    assign (deref finalRecallNumbers w) originalIndexToChange newChangedValue;
  let w := store finalRecallNumbers changed w in
  let '(shuffledFinalRecallNumbers, w) :=
    array_sort random_order finalRecallNumbers w in
  let finalChangedIndexInScrambled :=
    indexOf (deref shuffledFinalRecallNumbers w) newChangedValue in
  let s := setPreparedRecallNumbers shuffledFinalRecallNumbers s in
  let s := setChangedTileIndex (Some finalChangedIndexInScrambled) s in
  let '(current, w) := spread initialNumbers w in
  let s := setCurrentGridNumbers current s in
  Some (RoundLocals initialNumbers finalRecallNumbers originalIndexToChange
          newChangedValue shuffledFinalRecallNumbers
          finalChangedIndexInScrambled, s, w).

(** ** Event handlers *)

Definition handleDifficultySelect (selectedDifficulty : level) (s : session)
    : session :=
  let s := setDifficulty (Some selectedDifficulty) s in
  let s := setTotalScore 0 s in
  setGameState State.number_selection s.

Definition handleNumTilesSelect (fuel : nat) (count : Z) (s : session)
    (w : world) : option (session * world) :=
  let s := setNumTiles (Some count) s in
  let s := setFeedbackMessage EmptyString s in
  '(_, s, w) ← setupOddOneOutRound fuel count s w;
  Some (setGameState State.memorize_original s, w).

Definition handleNextRoundOrTryAgain (fuel : nat) (s : session) (w : world)
    : option (session * world) :=
  let s := setShowModal false s in
  match numTiles s with
  | Some n =>
      '(_, s, w) ← setupOddOneOutRound fuel n s w;
      let s := setGameState State.memorize_original s in
      Some (setFeedbackMessage EmptyString s, w)
  | None => Some (s, w)
  end.

End Round.

(** The tile counts offered for a difficulty. *)
Definition countOptions (d : option level) : list Z :=
  match d with
  | Some easy => [4; 5; 6; 7; 8]
  | Some medium => [8; 9; 10; 11; 12]
  | Some hard => [12; 13; 14; 15; 16]
  | None => []
  end.

(** The timeout of the memorize phase firing. *)
Definition memorizeTimer_fired (s : session) : session :=
  let s := setFeedbackMessage "Find the changed number!" s in
  let s := setCurrentGridNumbers (preparedRecallNumbers s) s in
  let s := setGameState State.odd_one_out_recall s in
  setCountdown 0 s.

Definition handleTileClick (i : Z) (s : session) : session :=
  match gameState s with
  | State.odd_one_out_recall => setSelectedTileIndex (Some i) s
  | _ => s
  end.

(** [homeAction.onClick] *)
Definition homeAction_onClick (s : session) : session :=
  let s := setGameState State.start s in
  let s := setShowModal false s in
  let s := setSelectedTileIndex None s in
  setTotalScore 0 s.

(** The [onClick] of the Home and of the New Game button under the grid (the
    two are the same function). *)
Definition homeButton_onClick (s : session) : session :=
  let s := setGameState State.start s in
  let s := setSelectedTileIndex None s in
  setTotalScore 0 s.

(** [currentGridNumbers[changedTileIndex]] *)
Definition changed_number (s : session) (w : world) : option Z :=
  match changedTileIndex s with
  | Some i => index (deref (currentGridNumbers s) w) i
  | None => None
  end.

(** [handleSubmitRecall()].  It reads the arrays and writes none. *)
Definition handleSubmitRecall (s : session) (w : world) : session :=
  match selectedTileIndex s with
  | None => setFeedbackMessage "Please select a tile!" s
  | Some _ =>
      if bool_decide (selectedTileIndex s = changedTileIndex s) then
        let s1 := setRoundScore BASE_SCORE_PER_CORRECT s in
        let newTotal := totalScore s1 + BASE_SCORE_PER_CORRECT in
        let s2 :=
          if newTotal >=? TOTAL_SCORE_TO_WIN then
            let s := setGameState State.overall_win s1 in
            let s := setFeedbackMessage "You are the CHAMPION!" s in
            let s := setModalMessage
              ("You are the CHAMPION! Final Score: " +:+ pretty newTotal) s in
            setModalActions [homeAction] s
          else
            let s := setGameState State.round_win s1 in
            let s := setFeedbackMessage "Round Complete!" s in
            let s := setModalMessage
              ("Round Complete! Total Score: " +:+ pretty newTotal +:+ ".") s in
            setModalActions [homeAction; nextRoundAction] s in
        let s3 := setShowModal true s2 in
        setTotalScore newTotal s3
      else
        let s := setRoundScore 0 s in
        let s := setGameState State.game_over s in
        let s := setFeedbackMessage
          ("Wrong! The changed number was: "
           +:+ to_string (changed_number s w)) s in
        let s := setModalMessage
          ("Game Over! The changed tile was: "
           +:+ to_string (changed_number s w)) s in
        let s := setModalActions [homeAction; tryAgainAction] s in
        setShowModal true s
  end.

(** ** The values a round is made of *)

(** What the draw and the setup compute, read on values alone: the arrays are
    lists and the only state is the sequence of numbers [Math.random] is
    going to return.  The lemmas below show that the programs above leave
    exactly these values in the heap. *)

Definition stream : Type := nat -> unit_float.

Definition shift (rnd : stream) : stream := fun n => rnd (S n).

Section Values.

Context `{SortEngine}.

(** The array after [sort(() => 0.5 - Math.random())], and what is left of
    the random sequence. *)
Definition shuffle (a : list Z) (rnd : stream) : list Z * stream :=
  let '(a', w') := sort_by random_order a (World [] rnd) in (a', random w').

(** The shuffled pool, its first [count] elements, the rest of the random
    sequence. *)
Definition drawn_values (count : Z) (rnd : stream)
    : list Z * list Z * stream :=
  let '(pool, rnd1) := shuffle (Array_from_succ NUMBER_POOL_MAX) rnd in
  (pool, slice pool 0 (Z.min count NUMBER_POOL_MAX), rnd1).

Fixpoint pick_value (fuel : nat) (initial : list Z) (idx : Z) (rnd : stream)
    : option (Z * stream) :=
  match fuel with
  | O => None
  | S fuel' =>
      let v := floor_mul (rnd 0%nat) NUMBER_POOL_MAX + 1 in
      if includes initial v || bool_decide (Some v = index initial idx)
      then pick_value fuel' initial idx (shift rnd)
      else Some (v, shift rnd)
  end.

Record round : Type := Round {
  pool : list Z;
  original : list Z;
  indexToChange : Z;
  changedValue : Z;
  preShuffle : list Z;
  recallLayout : list Z;
  changedIndex : Z;
  rest : stream
}.

Definition round_values (fuel : nat) (count : Z) (rnd : stream)
    : option round :=
  let '(pool, original, rnd) := drawn_values count rnd in
  let idx := floor_mul (rnd 0%nat) (Z.of_nat (length original)) in
  '(v, rnd) ← pick_value fuel original idx (shift rnd);
  changed ← assign original idx v;
  let '(recall, rnd) := shuffle changed rnd in
  Some (Round pool original idx v changed recall (indexOf recall v) rnd).

(** The array returned by [generateUniqueNumbers(count)]. *)
Definition drawn (count : Z) (w : world) : list Z :=
  let '(l, w') := generateUniqueNumbers count w in deref l w'.

End Values.

(** What a finished setup leaves for the rest of the game: the original
    numbers, the recall layout, the index of the changed tile, the changed
    value and the index it was written at. *)
Definition round_of (r : round_locals * session * world)
    : list Z * list Z * option Z * Z * Z :=
  let '(rl, s, w) := r in
  (deref (originalGridNumbers s) w, deref (preparedRecallNumbers s) w,
   changedTileIndex s, newChangedValue rl, originalIndexToChange rl).

(** ** Rendering *)

#[global] Instance State_eq_dec : EqDecision State.t.
Proof. solve_decision. Defined.

#[global] Instance level_eq_dec : EqDecision level.
Proof. solve_decision. Defined.

#[global] Instance action_eq_dec : EqDecision action.
Proof. solve_decision. Defined.

(** [Math.ceil(Math.sqrt(n))] for an integer [0 <= n < 2 ^ 52], where the
    rounding of the square root to a double does not reach another integer. *)
Definition ceil_sqrt (n : Z) : Z :=
  let r := Z.sqrt n in if r * r =? n then r else r + 1.

(** [currentGridDimension]: [numTiles ? Math.max(3, Math.ceil(Math.sqrt(numTiles))) : 3].
    [null] and [0] are falsy; the square root of a negative number is [NaN],
    and so is the maximum then: [None]. *)
Definition currentGridDimension (s : session) : option Z :=
  match numTiles s with
  | None => Some 3
  | Some n =>
      if n =? 0 then Some 3
      else if n <? 0 then None
      else Some (Z.max 3 (ceil_sqrt n))
  end.

(** The column class of the grid container. *)
Definition grid_cols (dimension : option Z) : string :=
  if bool_decide (dimension = Some 3) then "grid-cols-3"
  else if bool_decide (dimension = Some 4) then "grid-cols-4"
  else EmptyString.

(** The states in which the grid is on the page, and those in which the
    buttons under it are. *)
Definition grid_shown (g : State.t) : bool :=
  match g with
  | State.memorize_original | State.odd_one_out_recall | State.round_win
  | State.overall_win | State.game_over => true
  | _ => false
  end.

Definition round_over (g : State.t) : bool :=
  match g with
  | State.round_win | State.overall_win | State.game_over => true
  | _ => false
  end.

(** What [renderGrid] appends to the classes of tile [i]. *)
Definition cell_highlight (s : session) (i : Z) : string :=
  let isSelected := bool_decide (selectedTileIndex s = Some i) in
  match gameState s with
  | State.memorize_original => " bg-gray-800 text-gray-50"
  | State.odd_one_out_recall =>
      if isSelected then " bg-blue-500 text-white shadow-lg"
      else " bg-gray-800 text-gray-50 hover:bg-gray-700"
  | State.round_win | State.overall_win | State.game_over =>
      if bool_decide (Some i = changedTileIndex s)
      then " bg-green-500 text-white animate-pulse"
      else if isSelected && negb (bool_decide (Some i = changedTileIndex s))
      then " bg-red-500 text-white"
      else " bg-gray-800 text-gray-500"
  | _ => EmptyString
  end.

(** The cells of [renderGrid]: for [i] from 0 below [numTiles], the highlight
    of the tile and the number it shows ([None]: nothing). *)
Definition renderGrid (s : session) (w : world) : list (string * option Z) :=
  (fun i => (cell_highlight s i, index (deref (currentGridNumbers s) w) i))
    <$> seqZ 0 (default 0 (numTiles s)).

(** ** The memorize timer *)

Definition memorizeTime (d : option level) : Z :=
  match d with
  | Some easy => 4000
  | Some medium => 8000
  | _ => 12000
  end.

(** The body of the effect when [gameState] is [memorize_original], up to
    the start of the two timers. *)
Definition memorize_effect (s : session) : session :=
  let s := setCountdown (memorizeTime (difficulty s) `div` 1000) s in
  let s := setFeedbackMessage "Observe the numbers!" s in
  let s := setModalActions [] s in
  setShowModal false s.

(** One firing of the interval: the updater passed to [setCountdown]. *)
Definition countdown_tick (s : session) : session :=
  setCountdown (if countdown s <=? 1 then 0 else countdown s - 1) s.

(** ** The page as a transition system *)

(** What can happen to the page: a click on a button or a tile that is
    rendered, or one of the two timers of the memorize phase. *)
Inductive event : Type :=
  | StartGame
  | SelectDifficulty (d : level)
  | SelectNumTiles (count : Z)
  | Tick
  | TimerFired
  | TileClick (i : Z)
  | Submit
  | HomeButton
  | NextOrTryAgainButton
  | ModalButton (a : action).

(** The conditions under which the source renders the element, or has the
    timer running.  The buttons under the grid count as rendered while the
    modal covers them. *)
Definition rendered (e : event) (s : session) : bool :=
  match e with
  | StartGame => bool_decide (gameState s = State.start)
  | SelectDifficulty _ => bool_decide (gameState s = State.difficulty)
  | SelectNumTiles count =>
      bool_decide (gameState s = State.number_selection)
      && bool_decide (count ∈ countOptions (difficulty s))
  | Tick | TimerFired => bool_decide (gameState s = State.memorize_original)
  | TileClick i =>
      grid_shown (gameState s)
      && match numTiles s with
         | Some n => (0 <=? i) && (i <? n)
         | None => false
         end
  | Submit => bool_decide (gameState s = State.odd_one_out_recall)
  | HomeButton | NextOrTryAgainButton => round_over (gameState s)
  | ModalButton a => showModal s && bool_decide (a ∈ modalActions s)
  end.

(** The effect depends on [[gameState, difficulty, preparedRecallNumbers]];
    arrays are compared by reference. *)
Definition effect_deps_changed (s s' : session) : bool :=
  negb (bool_decide (gameState s = gameState s')
        && bool_decide (difficulty s = difficulty s')
        && bool_decide (preparedRecallNumbers s = preparedRecallNumbers s')).

(** After the render that follows a handler, the effect runs if one of its
    dependencies changed. *)
Definition run_effect (s s' : session) : session :=
  if effect_deps_changed s s'
     && bool_decide (gameState s' = State.memorize_original)
  then memorize_effect s'
  else s'.

Section Page.

Context `{SortEngine}.

(** The handler of each event.  The Try Again and Next Round actions of the
    modal hold the [handleNextRoundOrTryAgain] of the render that built them;
    [numTiles], which it closes over, only changes in [handleNumTilesSelect],
    after which the effect empties [modalActions]. *)
Definition handler (fuel : nat) (e : event) (s : session) (w : world)
    : option (session * world) :=
  match e with
  | StartGame => Some (setGameState State.difficulty s, w)
  | SelectDifficulty d => Some (handleDifficultySelect d s, w)
  | SelectNumTiles count => handleNumTilesSelect fuel count s w
  | Tick => Some (countdown_tick s, w)
  | TimerFired => Some (memorizeTimer_fired s, w)
  | TileClick i => Some (handleTileClick i s, w)
  | Submit => Some (handleSubmitRecall s w, w)
  | HomeButton => Some (homeButton_onClick s, w)
  | NextOrTryAgainButton => handleNextRoundOrTryAgain fuel s w
  | ModalButton homeAction => Some (homeAction_onClick s, w)
  | ModalButton _ => handleNextRoundOrTryAgain fuel s w
  end.

Definition step (fuel : nat) (e : event) (a : session * world)
    : option (session * world) :=
  let '(s, w) := a in
  if rendered e s then
    '(s', w') ← handler fuel e s w;
    Some (run_effect s s', w')
  else None.

Fixpoint run (fuel : nat) (es : list event) (a : session * world)
    : option (session * world) :=
  match es with
  | [] => Some a
  | e :: es' => a' ← step fuel e a; run fuel es' a'
  end.

(** The pages that can come up: the first render, in any world, and what a
    sequence of events makes of it. *)
Inductive reachable : session * world -> Prop :=
  | reachable_mount (w : world) : reachable (mount w)
  | reachable_step (fuel : nat) (e : event) (a a' : session * world) :
      reachable a -> step fuel e a = Some a' -> reachable a'.

End Page.

(** ** Invariants of the page *)

(** A round on [n] tiles: the original numbers, the recall layout and the
    index of the changed tile fit together. *)
Definition round_ok (n : Z) (numbers recall : list Z) (changed : option Z)
    : Prop :=
  4 <= n <= 16 /\
  Z.of_nat (length numbers) = n /\
  NoDup numbers /\
  (forall x, x ∈ numbers -> 1 <= x <= 100) /\
  NoDup recall /\
  exists ci v idx : Z,
    changed = Some ci /\ 0 <= ci < n /\ index recall ci = Some v /\
    (v ∉ numbers) /\ 1 <= v <= 100 /\ 0 <= idx < n /\
    recall ≡ₚ <[Z.to_nat idx := v]> numbers.

(** What each value of [gameState] comes with. *)
Definition state_inv (s : session) (w : world) : Prop :=
  match gameState s with
  | State.start | State.difficulty | State.number_selection => True
  | State.memorize_original =>
      showModal s = false /\ selectedTileIndex s = None /\ roundScore s = 0 /\
      deref (currentGridNumbers s) w = deref (originalGridNumbers s) w /\
      feedbackMessage s = "Observe the numbers!"
  | State.odd_one_out_recall =>
      showModal s = false /\ roundScore s = 0 /\
      currentGridNumbers s = preparedRecallNumbers s
  | State.round_win =>
      showModal s = true /\ modalActions s = [homeAction; nextRoundAction] /\
      selectedTileIndex s = changedTileIndex s /\ roundScore s = 20 /\
      20 <= totalScore s < 100 /\
      currentGridNumbers s = preparedRecallNumbers s
  | State.overall_win =>
      showModal s = true /\ modalActions s = [homeAction] /\
      selectedTileIndex s = changedTileIndex s /\ roundScore s = 20 /\
      100 <= totalScore s /\
      currentGridNumbers s = preparedRecallNumbers s
  | State.game_over =>
      showModal s = true /\ modalActions s = [homeAction; tryAgainAction] /\
      selectedTileIndex s ≠ None /\
      selectedTileIndex s ≠ changedTileIndex s /\ roundScore s = 0 /\
      currentGridNumbers s = preparedRecallNumbers s /\
      feedbackMessage s
      = "Wrong! The changed number was: " +:+ to_string (changed_number s w)
  end.

Definition page_inv (a : session * world) : Prop :=
  let '(s, w) := a in
  (0 <= totalScore s /\ totalScore s `mod` 20 = 0) /\
  ((originalGridNumbers s < length (heap w))%nat /\
   (currentGridNumbers s < length (heap w))%nat /\
   (preparedRecallNumbers s < length (heap w))%nat) /\
  (forall i, selectedTileIndex s = Some i ->
     exists n, numTiles s = Some n /\ 0 <= i < n) /\
  match numTiles s with
  | None => grid_shown (gameState s) = false /\ showModal s = false
  | Some n =>
      round_ok n (deref (originalGridNumbers s) w)
        (deref (preparedRecallNumbers s) w) (changedTileIndex s)
  end /\
  state_inv s w.

(** ** Sample inputs *)

Module Sample.

Definition zero : unit_float := UnitFloat 0 1 eq_refl.
Definition quarter : unit_float := UnitFloat 1 4 eq_refl.
Definition three_quarters : unit_float := UnitFloat 3 4 eq_refl.

Definition alternating : stream :=
  fun n => if Nat.even n then quarter else three_quarters.

(** The page right after the first render. *)
Definition fresh_world : world := World [] alternating.
Definition mounted : session * world := mount fresh_world.

(** A recall phase on four tiles: [3; 17; 42; 88] was shown, 42 became 55. *)
Definition recall_world : world :=
  World [[3; 17; 42; 88]; [88; 3; 55; 17]; [88; 3; 55; 17]] alternating.

Definition recall_session (total : Z) (selected : option Z) : session :=
  Session State.odd_one_out_recall (Some easy) (Some 4) 0%nat 1%nat 2%nat
    (Some 2) selected 0 total "Find the changed number!" false EmptyString [] 0.

End Sample.

(** Two games on the sample page: easy, four tiles, then the changed tile
    (index 3) or another one. *)
Module SamplePage.

Definition round_won : list event :=
  [StartGame; SelectDifficulty easy; SelectNumTiles 4; Tick; TimerFired;
   TileClick 3; Submit].

Definition round_lost : list event :=
  [StartGame; SelectDifficulty easy; SelectNumTiles 4; TimerFired;
   TileClick 0; Submit].

End SamplePage.

(** * Properties *)

(** ** Numbers *)

Lemma floor_mul_range (r : unit_float) (n : Z) :
  0 < n -> 0 <= floor_mul r n < n.
Proof.
  intros Hn. unfold floor_mul.
  destruct r as [k d Hk]; simpl.
  apply N.ltb_lt in Hk.
  assert (Z.of_N k < Z.pos d) by lia.
  split.
  - apply Z.div_pos; lia.
  - apply Z.div_lt_upper_bound; nia.
Qed.

Lemma floor_mul_0 (r : unit_float) : floor_mul r 0 = 0.
Proof. unfold floor_mul. by rewrite Z.mul_0_r. Qed.

Lemma floor_mul_le_length (r : unit_float) (a : list Z) :
  0 <= floor_mul r (Z.of_nat (length a)) <= Z.of_nat (length a).
Proof.
  destruct a as [|x a].
  - simpl. rewrite floor_mul_0. lia.
  - pose proof (floor_mul_range r (Z.of_nat (length (x :: a)))) as Hr.
    simpl length in *. lia.
Qed.

(** ** Arrays *)

Lemma includes_true (a : list Z) (v : Z) : includes a v = true <-> v ∈ a.
Proof. unfold includes. apply bool_decide_eq_true. Qed.

Lemma indexOf_elem (a : list Z) (v : Z) :
  v ∈ a ->
  0 <= indexOf a v < Z.of_nat (length a) /\ index a (indexOf a v) = Some v.
Proof.
  unfold index. induction a as [|x a IH]; intros Hin.
  - by apply elem_of_nil in Hin.
  - simpl indexOf. case_bool_decide as Hx.
    + subst x. simpl. split; [lia | done].
    + apply elem_of_cons in Hin as [-> | Hin]; [done |].
      destruct (IH Hin) as [Hr Hi].
      assert ((indexOf a v <? 0) = false) as Hneg by lia.
      rewrite Hneg in Hi |- *.
      assert ((indexOf a v + 1 <? 0) = false) as -> by lia.
      replace (Z.to_nat (indexOf a v + 1)) with (S (Z.to_nat (indexOf a v)))
        by lia.
      simpl length. split; [lia | done].
Qed.

Lemma slice_prefix (a : list Z) (n : Z) :
  0 <= n -> slice a 0 n = take (Z.to_nat n) a.
Proof.
  intros Hn. unfold slice.
  assert (relative_index (Z.of_nat (length a)) 0 = 0) as ->
    by (unfold relative_index; simpl; lia).
  assert (relative_index (Z.of_nat (length a)) n = Z.min n (Z.of_nat (length a)))
    as -> by (unfold relative_index; destruct (n <? 0) eqn:?; lia).
  change (Z.to_nat 0) with 0%nat. rewrite drop_0, Z.sub_0_r.
  destruct (decide (n <= Z.of_nat (length a))).
  - by rewrite Z.min_l by lia.
  - rewrite Z.min_r by lia. rewrite Nat2Z.id.
    rewrite (take_ge a (length a)) by lia.
    by rewrite (take_ge a (Z.to_nat n)) by lia.
Qed.

Lemma assign_inside (a : list Z) (i v : Z) :
  0 <= i < Z.of_nat (length a) -> assign a i v = Some (<[Z.to_nat i := v]> a).
Proof.
  intros Hi. unfold assign.
  assert ((i <? 0) = false) as -> by lia.
  by assert ((i <? Z.of_nat (length a)) = true) as -> by lia.
Qed.

Lemma assign_is_Some (a : list Z) (i v : Z) :
  0 <= i <= Z.of_nat (length a) -> is_Some (assign a i v).
Proof.
  intros Hi. unfold assign.
  repeat case_match; try done; lia.
Qed.

(** ** The heap *)

Lemma deref_app_new (h : list (list Z)) (a : list Z) (k : list (list Z))
    (rnd : stream) :
  deref (length h) (World (h ++ a :: k) rnd) = a.
Proof. unfold deref. simpl. by rewrite list_lookup_middle. Qed.

Lemma deref_app_old (h k : list (list Z)) (l : loc) (rnd rnd' : stream) :
  (l < length h)%nat -> deref l (World (h ++ k) rnd) = deref l (World h rnd').
Proof. intros Hl. unfold deref. simpl. by rewrite lookup_app_l. Qed.

(** ** Sorting *)

Module InsertionFacts.
Import Insertion.

Lemma insert_by_perm {S : Type} (cmp : comparefn S) x sorted s :
  (insert_by cmp x sorted s).1 ≡ₚ x :: sorted.
Proof.
  revert s. induction sorted as [|y sorted IH]; intros s; simpl; [done |].
  destruct (cmp x y s) as [c s1]. destruct (c <? 0); simpl; [done |].
  specialize (IH s1). destruct (insert_by cmp x sorted s1) as [l s2]; simpl in *.
  rewrite IH. apply Permutation_swap.
Qed.

Lemma sort_from_perm {S : Type} (cmp : comparefn S) pending sorted s :
  (sort_from cmp pending sorted s).1 ≡ₚ pending ++ sorted.
Proof.
  revert sorted s. induction pending as [|x pending IH]; intros sorted s;
    simpl; [done |].
  pose proof (insert_by_perm cmp x sorted s) as Hx.
  destruct (insert_by cmp x sorted s) as [sorted' s1]; simpl in *.
  rewrite IH, Hx. by rewrite Permutation_middle.
Qed.

Section Related.

Context {S1 S2 : Type} (R : S1 -> S2 -> Prop).
Context (cmp1 : comparefn S1) (cmp2 : comparefn S2).
Hypothesis cmp_rel : forall x y s1 s2, R s1 s2 ->
  (cmp1 x y s1).1 = (cmp2 x y s2).1 /\ R (cmp1 x y s1).2 (cmp2 x y s2).2.

Lemma insert_by_rel x sorted s1 s2 :
  R s1 s2 ->
  (insert_by cmp1 x sorted s1).1 = (insert_by cmp2 x sorted s2).1 /\
  R (insert_by cmp1 x sorted s1).2 (insert_by cmp2 x sorted s2).2.
Proof.
  revert s1 s2. induction sorted as [|y sorted IH]; intros s1 s2 HR; simpl;
    [done |].
  destruct (cmp_rel x y s1 s2 HR) as [Hc HR'].
  destruct (cmp1 x y s1) as [c1 t1], (cmp2 x y s2) as [c2 t2]; simpl in *.
  subst c2. destruct (c1 <? 0); simpl; [done |].
  destruct (IH t1 t2 HR') as [Hl HR''].
  destruct (insert_by cmp1 x sorted t1), (insert_by cmp2 x sorted t2);
    simpl in *.
  by subst.
Qed.

Lemma sort_from_rel pending sorted s1 s2 :
  R s1 s2 ->
  (sort_from cmp1 pending sorted s1).1 = (sort_from cmp2 pending sorted s2).1 /\
  R (sort_from cmp1 pending sorted s1).2 (sort_from cmp2 pending sorted s2).2.
Proof.
  revert sorted s1 s2.
  induction pending as [|x pending IH]; intros sorted s1 s2 HR; simpl;
    [done |].
  destruct (insert_by_rel x sorted s1 s2 HR) as [Hl HR'].
  destruct (insert_by cmp1 x sorted s1), (insert_by cmp2 x sorted s2);
    simpl in *.
  subst. by apply IH.
Qed.

End Related.

End InsertionFacts.

Definition insertion_engine : SortEngine := {|
  sort_by := @Insertion.sort;
  sort_by_perm := fun S cmp a s =>
    eq_ind_r (fun l => (Insertion.sort cmp a s).1 ≡ₚ l)
      (InsertionFacts.sort_from_perm cmp a [] s) (eq_sym (app_nil_r a));
  sort_by_rel := fun S1 S2 R cmp1 cmp2 Hcmp a s1 s2 HR =>
    InsertionFacts.sort_from_rel R cmp1 cmp2 Hcmp a [] s1 s2 HR
|}.

(** ** The programs compute the values *)

Lemma deref_offset (h k : list (list Z)) (i : nat) (rnd : stream) :
  deref (length h + i)%nat (World (h ++ k) rnd) = default [] (k !! i).
Proof.
  unfold deref. simpl. rewrite lookup_app_r by lia.
  by replace (length h + i - length h)%nat with i by lia.
Qed.

Lemma store_offset (h k : list (list Z)) (i : nat) (a : list Z) (rnd : stream) :
  store (length h + i)%nat a (World (h ++ k) rnd) = World (h ++ <[i := a]> k) rnd.
Proof. unfold store. simpl. by rewrite insert_app_r. Qed.

Ltac heap_simpl :=
  repeat first
    [ progress simpl
    | rewrite length_app
    | rewrite <- app_assoc
    | rewrite <- Nat.add_assoc
    | rewrite deref_offset
    | rewrite store_offset ].

Section Refinement.

Context `{SortEngine}.

Lemma random_order_heap x y (w : world) :
  heap (random_order x y w).2 = heap w.
Proof. done. Qed.

(** Sorting with [random_order] leaves the heap alone and uses nothing of the
    world but its random sequence. *)
Lemma sort_random_order (a : list Z) (w : world) :
  sort_by random_order a w
  = ((shuffle a (random w)).1, World (heap w) (shuffle a (random w)).2).
Proof.
  unfold shuffle.
  destruct (sort_by_rel world world
              (fun w1 w2 => heap w1 = heap w /\ random w1 = random w2)
              random_order random_order) with (a := a) (s1 := w)
              (s2 := World [] (random w)) as [Ha [Hh Hr]].
  - intros x y [h1 r1] [h2 r2] [Hh Hr]. simpl in *. by subst.
  - done.
  - destruct (sort_by random_order a w) as [a1 [h1 r1]].
    destruct (sort_by random_order a (World [] (random w))) as [a2 [h2 r2]].
    simpl in *. by subst.
Qed.

Lemma shuffle_perm (a : list Z) (rnd : stream) : (shuffle a rnd).1 ≡ₚ a.
Proof.
  unfold shuffle.
  pose proof (sort_by_perm world random_order a (World [] rnd)) as Hp.
  by destruct (sort_by random_order a (World [] rnd)) as [a' w'].
Qed.

Lemma array_sort_offset (h k : list (list Z)) (i : nat) (rnd : stream) :
  let a := default [] (k !! i) in
  array_sort random_order (length h + i)%nat (World (h ++ k) rnd)
  = ((length h + i)%nat,
     World (h ++ <[i := (shuffle a rnd).1]> k) (shuffle a rnd).2).
Proof.
  unfold array_sort. rewrite deref_offset, sort_random_order. simpl.
  by rewrite store_offset.
Qed.

Lemma generateUniqueNumbers_values (count : Z) (w : world) :
  generateUniqueNumbers count w
  = let '(pool, numbers, rnd) := drawn_values count (random w) in
    ((length (heap w) + 1)%nat, World (heap w ++ [pool; numbers]) rnd).
Proof.
  destruct w as [h rnd]. unfold generateUniqueNumbers, drawn_values, alloc.
  simpl heap. simpl random.
  replace (length h) with (length h + 0)%nat at 1 by lia.
  rewrite array_sort_offset. simpl.
  destruct (shuffle (Array_from_succ NUMBER_POOL_MAX) rnd) as [pool rnd1].
  heap_simpl. done.
Qed.

Lemma drawn_eq (count : Z) (w : world) :
  drawn count w = (drawn_values count (random w)).1.2.
Proof.
  unfold drawn. rewrite generateUniqueNumbers_values.
  destruct (drawn_values count (random w)) as [[pool numbers] rnd].
  replace (length (heap w) + 1)%nat with (length (heap w ++ [pool]) + 0)%nat
    by (rewrite length_app; simpl; lia).
  replace (heap w ++ [pool; numbers]) with ((heap w ++ [pool]) ++ [numbers])
    by by rewrite <- app_assoc.
  by rewrite deref_offset.
Qed.

Lemma pick_changed_value_values (fuel : nat) (l : loc) (idx : Z) (w : world) :
  pick_changed_value fuel l idx w
  = '(v, rnd) ← pick_value fuel (deref l w) idx (random w);
    Some (v, World (heap w) rnd).
Proof.
  revert w. induction fuel as [|fuel IH]; intros [h rnd]; simpl; [done |].
  change (deref l {| heap := h; random := fun n => rnd (S n) |})
    with (deref l (World h rnd)).
  case_match; [|done].
  by rewrite IH.
Qed.

End Refinement.

Section Setup.

Context `{SortEngine}.

(** [setupOddOneOutRound] allocates five arrays after the [n0] the heap
    holds: the shuffled pool, [initialNumbers], the copy kept as
    [originalGridNumbers], [finalRecallNumbers] (changed and sorted in place,
    kept as [preparedRecallNumbers]) and the copy kept as
    [currentGridNumbers]. *)
Lemma setupOddOneOutRound_values (fuel : nat) (count : Z) (s : session)
    (w : world) :
  setupOddOneOutRound fuel count s w
  = rv ← round_values fuel count (random w);
    let n0 := length (heap w) in
    Some (RoundLocals (n0 + 1) (n0 + 3) (indexToChange rv) (changedValue rv)
            (n0 + 3) (changedIndex rv),
          Session (gameState s) (difficulty s) (numTiles s) (n0 + 2) (n0 + 4)
            (n0 + 3) (Some (changedIndex rv)) None 0 (totalScore s)
            (feedbackMessage s) (showModal s) (modalMessage s)
            (modalActions s) (countdown s),
          World (heap w ++ [pool rv; original rv; original rv;
                            recallLayout rv; original rv]) (rest rv))%nat.
Proof.
  destruct w as [h rnd].
  unfold setupOddOneOutRound, round_values.
  rewrite generateUniqueNumbers_values. simpl random. simpl heap.
  destruct (drawn_values count rnd) as [[p numbers] rnd1].
  unfold spread, alloc, Math_random. heap_simpl.
  rewrite pick_changed_value_values. heap_simpl.
  unfold shift.
  destruct (pick_value fuel numbers _ _) as [[v rnd2]|]; [|done].
  heap_simpl.
  destruct (assign numbers _ v) as [changed|]; [|done].
  heap_simpl.
  rewrite array_sort_offset. heap_simpl.
  destruct (shuffle changed rnd2) as [recall rnd3].
  heap_simpl.
  done.
Qed.

End Setup.

(** ** Facts about the values *)

Lemma Array_from_succ_NoDup (n : Z) : NoDup (Array_from_succ n).
Proof.
  unfold Array_from_succ. apply NoDup_fmap_2_strong; [|apply NoDup_seqZ].
  intros x y _ _ Hxy. lia.
Qed.

Lemma elem_of_Array_from_succ (n x : Z) :
  x ∈ Array_from_succ n <-> 1 <= x <= n.
Proof.
  unfold Array_from_succ. rewrite list_elem_of_fmap. split.
  - intros (i & -> & Hi). apply elem_of_seqZ in Hi. lia.
  - intros Hx. exists (x - 1). split; [lia |]. apply elem_of_seqZ. lia.
Qed.

Lemma Array_from_succ_length (n : Z) :
  length (Array_from_succ n) = Z.to_nat n.
Proof. unfold Array_from_succ. by rewrite length_fmap, length_seqZ. Qed.

Lemma slice_from_0 (a : list Z) (n : Z) : exists k : nat, slice a 0 n = take k a.
Proof.
  unfold slice.
  assert (relative_index (Z.of_nat (length a)) 0 = 0) as ->
    by (unfold relative_index; simpl; lia).
  change (Z.to_nat 0) with 0%nat. rewrite drop_0. eauto.
Qed.

Section ValueFacts.

Context `{SortEngine}.

Lemma drawn_values_pool (count : Z) (rnd : stream) :
  (drawn_values count rnd).1.1 ≡ₚ Array_from_succ NUMBER_POOL_MAX.
Proof.
  unfold drawn_values.
  pose proof (shuffle_perm (Array_from_succ NUMBER_POOL_MAX) rnd) as Hp.
  by destruct (shuffle (Array_from_succ NUMBER_POOL_MAX) rnd).
Qed.

Lemma drawn_values_slice (count : Z) (rnd : stream) :
  (drawn_values count rnd).1.2
  = slice (drawn_values count rnd).1.1 0 (Z.min count NUMBER_POOL_MAX).
Proof.
  unfold drawn_values.
  by destruct (shuffle (Array_from_succ NUMBER_POOL_MAX) rnd).
Qed.

Lemma drawn_values_NoDup (count : Z) (rnd : stream) :
  NoDup (drawn_values count rnd).1.2.
Proof.
  rewrite drawn_values_slice.
  destruct (slice_from_0 (drawn_values count rnd).1.1
              (Z.min count NUMBER_POOL_MAX)) as [k ->].
  eapply sublist_NoDup; [|apply sublist_take].
  rewrite drawn_values_pool. apply Array_from_succ_NoDup.
Qed.

Lemma drawn_values_range (count : Z) (rnd : stream) (x : Z) :
  x ∈ (drawn_values count rnd).1.2 -> 1 <= x <= NUMBER_POOL_MAX.
Proof.
  rewrite drawn_values_slice.
  destruct (slice_from_0 (drawn_values count rnd).1.1
              (Z.min count NUMBER_POOL_MAX)) as [k ->].
  intros Hx. apply subseteq_take in Hx.
  rewrite drawn_values_pool in Hx. by apply elem_of_Array_from_succ in Hx.
Qed.

Lemma drawn_values_length (count : Z) (rnd : stream) :
  0 <= count ->
  length (drawn_values count rnd).1.2
  = Z.to_nat (Z.min count NUMBER_POOL_MAX).
Proof.
  intros Hc. rewrite drawn_values_slice.
  rewrite slice_prefix by (unfold NUMBER_POOL_MAX; lia).
  rewrite length_take, drawn_values_pool, Array_from_succ_length.
  unfold NUMBER_POOL_MAX. lia.
Qed.

Lemma pick_value_Some (fuel : nat) (initial : list Z) (idx : Z)
    (rnd rnd' : stream) (v : Z) :
  pick_value fuel initial idx rnd = Some (v, rnd') ->
  (v ∉ initial) /\ (index initial idx ≠ Some v) /\ 1 <= v <= NUMBER_POOL_MAX.
Proof.
  revert rnd. induction fuel as [|fuel IH]; intros rnd; simpl; [done |].
  destruct (includes initial _) eqn:Hinc; simpl; [apply IH |].
  case_bool_decide as Hidx; [apply IH |].
  intros [= <- <-]. split; [|split].
  - intros Hin. apply includes_true in Hin. congruence.
  - congruence.
  - pose proof (floor_mul_range (rnd 0%nat) NUMBER_POOL_MAX).
    unfold NUMBER_POOL_MAX in *. lia.
Qed.

(** Enough fuel gives a value: the loop stops at the first number of the
    sequence that is not in the array. *)
Lemma pick_value_terminates (fuel : nat) (initial : list Z) (idx : Z)
    (rnd : stream) (k : nat) :
  (k < fuel)%nat ->
  floor_mul (rnd k) NUMBER_POOL_MAX + 1 ∉ initial ->
  is_Some (pick_value fuel initial idx rnd).
Proof.
  revert rnd k. induction fuel as [|fuel IH]; intros rnd k Hk Hv; [lia |].
  simpl.
  destruct (includes initial _ || bool_decide _) eqn:Hloop; [|eauto].
  destruct k as [|k].
  - apply orb_true_iff in Hloop as [Hinc | Heq].
    + by apply includes_true in Hinc.
    + apply bool_decide_eq_true in Heq. exfalso. apply Hv.
      unfold index in Heq. case_match; [done |].
      symmetry in Heq. by eapply list_elem_of_lookup_2.
  - apply (IH (shift rnd) k); [lia | done].
Qed.

Lemma round_values_Some (fuel : nat) (count : Z) (rnd : stream) (rv : round) :
  round_values fuel count rnd = Some rv ->
  original rv = (drawn_values count rnd).1.2 /\
  (changedValue rv ∉ original rv) /\
  (index (original rv) (indexToChange rv) ≠ Some (changedValue rv)) /\
  0 <= indexToChange rv <= Z.of_nat (length (original rv)) /\
  (original rv ≠ [] -> indexToChange rv < Z.of_nat (length (original rv))) /\
  assign (original rv) (indexToChange rv) (changedValue rv)
    = Some (preShuffle rv) /\
  recallLayout rv ≡ₚ preShuffle rv /\
  changedIndex rv = indexOf (recallLayout rv) (changedValue rv).
Proof.
  unfold round_values.
  destruct (drawn_values count rnd) as [[p numbers] rnd1]. simpl.
  destruct (pick_value fuel numbers _ (shift rnd1)) as [[v rnd2]|] eqn:Hpick;
    [|done].
  simpl. destruct (assign numbers _ v) as [changed|] eqn:Hassign; [|done].
  simpl. pose proof (shuffle_perm changed rnd2) as Hperm.
  destruct (shuffle changed rnd2) as [recall rnd3]. intros [= <-]. simpl in *.
  apply pick_value_Some in Hpick as (Hv & Hidx & _).
  split_and!; try done.
  - apply floor_mul_le_length.
  - apply floor_mul_le_length.
  - intros Hne. apply floor_mul_range.
    destruct numbers; [done | simpl; lia].
Qed.

Lemma round_values_terminates (fuel : nat) (count : Z) (rnd : stream)
    (k : nat) :
  (k < fuel)%nat ->
  floor_mul ((drawn_values count rnd).2 (S k)) NUMBER_POOL_MAX + 1
    ∉ (drawn_values count rnd).1.2 ->
  is_Some (round_values fuel count rnd).
Proof.
  intros Hk Hv. unfold round_values.
  destruct (drawn_values count rnd) as [[p numbers] rnd1]. simpl in *.
  destruct (pick_value_terminates fuel numbers
              (floor_mul (rnd1 0%nat) (Z.of_nat (length numbers)))
              (shift rnd1) k Hk Hv) as [[v rnd2] ->].
  simpl.
  destruct (assign_is_Some numbers
              (floor_mul (rnd1 0%nat) (Z.of_nat (length numbers))) v
              (floor_mul_le_length _ _)) as [changed ->].
  simpl. destruct (shuffle changed rnd2). eauto.
Qed.

End ValueFacts.

(** ** The submit handler and the Home buttons *)

(** C1. In the recall state, submitting a selection equal to
    [changedTileIndex] adds exactly 20 to [totalScore] (so the score does not
    decrease), sets [roundScore] to 20, and moves to [overall_win] when the
    new total is at least 100 and to [round_win] otherwise. *)
Theorem handleSubmitRecall_correct (s : session) (w : world) (i : Z) :
  gameState s = State.odd_one_out_recall ->
  selectedTileIndex s = Some i ->
  changedTileIndex s = Some i ->
  let s' := handleSubmitRecall s w in
  totalScore s' = totalScore s + 20 /\
  totalScore s <= totalScore s' /\
  roundScore s' = 20 /\
  (100 <= totalScore s' -> gameState s' = State.overall_win) /\
  (totalScore s' < 100 -> gameState s' = State.round_win).
Proof.
  intros _ Hsel Hchanged. unfold handleSubmitRecall.
  rewrite Hsel, Hchanged, bool_decide_eq_true_2 by done.
  unfold BASE_SCORE_PER_CORRECT, TOTAL_SCORE_TO_WIN.
  simpl.
  destruct (Z.geb_spec (totalScore s + 20) 100) as [Hwin | Hwin]; simpl;
    (split_and!; [done | lia | done | intros; first [done | lia] ..]).
Qed.

Lemma handleSubmitRecall_correct_witness :
  let s := Sample.recall_session 80 (Some 2) in
  let s' := handleSubmitRecall s Sample.recall_world in
  gameState s = State.odd_one_out_recall /\
  totalScore s' = 100 /\ gameState s' = State.overall_win.
Proof.
  pose proof (handleSubmitRecall_correct (Sample.recall_session 80 (Some 2))
                Sample.recall_world 2 eq_refl eq_refl eq_refl) as Hs.
  simpl in Hs. destruct Hs as (Htotal & _ & _ & Hwin & _).
  split; [reflexivity |]. split; [exact Htotal | apply Hwin; rewrite Htotal; lia].
Defined.

(** C4. In the recall state, submitting a selection different from
    [changedTileIndex] moves to [game_over], awards nothing ([roundScore] is
    0) and leaves [totalScore] as it was. *)
Theorem handleSubmitRecall_wrong (s : session) (w : world) (i : Z) :
  gameState s = State.odd_one_out_recall ->
  selectedTileIndex s = Some i ->
  changedTileIndex s ≠ Some i ->
  let s' := handleSubmitRecall s w in
  gameState s' = State.game_over /\
  roundScore s' = 0 /\
  totalScore s' = totalScore s.
Proof.
  intros _ Hsel Hchanged. unfold handleSubmitRecall.
  rewrite Hsel, bool_decide_eq_false_2 by congruence.
  done.
Qed.

Lemma handleSubmitRecall_wrong_witness :
  let s := Sample.recall_session 80 (Some 0) in
  let s' := handleSubmitRecall s Sample.recall_world in
  gameState s' = State.game_over /\ roundScore s' = 0 /\ totalScore s' = 80.
Proof.
  apply (handleSubmitRecall_wrong (Sample.recall_session 80 (Some 0))
           Sample.recall_world 0); [reflexivity | reflexivity | discriminate].
Defined.

(** C6. Whatever the session, submitting with no selection only sets the
    feedback message: every other field, among them [gameState],
    [totalScore], [roundScore] and [selectedTileIndex], is as before.  The
    handler is a total function, it has no error to raise. *)
Theorem handleSubmitRecall_no_selection (s : session) (w : world) :
  selectedTileIndex s = None ->
  handleSubmitRecall s w = setFeedbackMessage "Please select a tile!" s /\
  let s' := handleSubmitRecall s w in
  gameState s' = gameState s /\
  totalScore s' = totalScore s /\
  roundScore s' = roundScore s /\
  selectedTileIndex s' = selectedTileIndex s.
Proof.
  intros Hsel. unfold handleSubmitRecall. by rewrite Hsel.
Qed.

Lemma handleSubmitRecall_no_selection_witness :
  let s := Sample.recall_session 40 None in
  handleSubmitRecall s Sample.recall_world
  = setFeedbackMessage "Please select a tile!" s.
Proof.
  apply (handleSubmitRecall_no_selection (Sample.recall_session 40 None)
           Sample.recall_world eq_refl).
Defined.

(** C7. From any session, the Home action of the modal and the Home / New
    Game buttons under the grid set [gameState] to [start], clear the
    selection and reset [totalScore] to 0. *)
Theorem home_resets (s : session) :
  (gameState (homeAction_onClick s) = State.start /\
   selectedTileIndex (homeAction_onClick s) = None /\
   totalScore (homeAction_onClick s) = 0) /\
  (gameState (homeButton_onClick s) = State.start /\
   selectedTileIndex (homeButton_onClick s) = None /\
   totalScore (homeButton_onClick s) = 0).
Proof. done. Qed.

(** C10. The handler looks at [gameState] nowhere: with a selection made,
    its result is the same whatever the state it is called in, and a
    selection equal to [changedTileIndex] earns 20 more points in every
    state, [round_win], [overall_win] and [game_over] included. *)
Theorem handleSubmitRecall_any_state (s : session) (w : world) (i : Z)
    (g : State.t) :
  selectedTileIndex s = Some i ->
  handleSubmitRecall (setGameState g s) w = handleSubmitRecall s w /\
  (changedTileIndex s = Some i ->
   totalScore (handleSubmitRecall (setGameState g s) w) = totalScore s + 20 /\
   roundScore (handleSubmitRecall (setGameState g s) w) = 20) /\
  (changedTileIndex s ≠ Some i ->
   gameState (handleSubmitRecall (setGameState g s) w) = State.game_over).
Proof.
  intros Hsel. unfold handleSubmitRecall. simpl. rewrite Hsel.
  split; [|split].
  - case_bool_decide; [|done]. by case_match.
  - intros Hchanged. rewrite Hchanged, bool_decide_eq_true_2 by done.
    unfold BASE_SCORE_PER_CORRECT. by case_match.
  - intros Hchanged. by rewrite bool_decide_eq_false_2 by congruence.
Qed.

Lemma handleSubmitRecall_any_state_witness :
  let s := handleSubmitRecall (Sample.recall_session 20 (Some 2))
             Sample.recall_world in
  gameState s = State.round_win /\ totalScore s = 40 /\
  totalScore (handleSubmitRecall s Sample.recall_world) = 60.
Proof.
  pose (s := handleSubmitRecall (Sample.recall_session 20 (Some 2))
               Sample.recall_world).
  destruct (handleSubmitRecall_any_state s Sample.recall_world 2
              State.round_win eq_refl) as (_ & Haward & _).
  destruct (Haward eq_refl) as [Htotal _].
  split; [reflexivity |]. split; [reflexivity | exact Htotal].
Defined.

(** ** The number draw and the round setup *)

Lemma filter_absent_nil (a b : list Z) :
  (forall x, x ∈ b -> x ∈ a) -> filter (fun x => x ∉ a) b = [].
Proof.
  intros Hb. induction b as [|y b IH]; [done |].
  rewrite filter_cons_False.
  - apply IH. intros x Hx. apply Hb. by right.
  - intros Hy. apply Hy, Hb. by left.
Qed.

(** After [a[i] = v] with [v] a new value, [v] is the one element that [a]
    did not have. *)
Lemma assign_filter_absent (a changed : list Z) (i v : Z) :
  0 <= i -> v ∉ a -> assign a i v = Some changed ->
  filter (fun x => x ∉ a) changed = [v].
Proof.
  intros Hi Hv. unfold assign.
  assert ((i <? 0) = false) as -> by lia.
  destruct (i <? Z.of_nat (length a)) eqn:Hlt.
  - intros [= <-]. rewrite insert_take_drop by lia.
    rewrite filter_app, filter_cons_True by done.
    rewrite !filter_absent_nil; [done | |].
    + intros x Hx. eapply subseteq_drop, Hx.
    + intros x Hx. eapply subseteq_take, Hx.
  - destruct (i =? Z.of_nat (length a)); [|done].
    intros [= <-]. rewrite filter_app, filter_cons_True by done.
    by rewrite filter_absent_nil.
Qed.

Lemma assign_elem (a changed : list Z) (i v : Z) :
  0 <= i -> assign a i v = Some changed -> v ∈ changed.
Proof.
  intros Hi. unfold assign.
  assert ((i <? 0) = false) as -> by lia.
  destruct (i <? Z.of_nat (length a)) eqn:Hlt.
  - intros [= <-]. apply list_elem_of_lookup. exists (Z.to_nat i).
    apply list_lookup_insert_eq. lia.
  - destruct (i =? Z.of_nat (length a)); [|done].
    intros [= <-]. apply elem_of_app. right. by left.
Qed.

Section RoundProperties.

Context `{SortEngine}.

(** C5. For every count (a number of tiles, so not negative), the draw
    returns pairwise distinct integers of [1, 100]; there are [count] of
    them when [count <= 100] and 100 when [count > 100].  The draw is a total
    function: nothing is raised. *)
Theorem generateUniqueNumbers_distinct (count : Z) (w : world) :
  0 <= count ->
  NoDup (drawn count w) /\
  Forall (fun x => 1 <= x <= 100) (drawn count w) /\
  (count <= 100 -> Z.of_nat (length (drawn count w)) = count) /\
  (100 < count -> length (drawn count w) = 100%nat).
Proof.
  intros Hcount. rewrite drawn_eq. split_and!.
  - apply drawn_values_NoDup.
  - apply Forall_forall. intros x Hx. by apply drawn_values_range in Hx.
  - intros Hle. rewrite drawn_values_length by done.
    unfold NUMBER_POOL_MAX. lia.
  - intros Hgt. rewrite drawn_values_length by done.
    unfold NUMBER_POOL_MAX. lia.
Qed.

(** C2. In every round built by the setup, the changed value is not among
    the original numbers and is not the value it replaced; the recall layout
    has exactly one element that the original numbers do not have, the
    changed value; and [changedTileIndex] is a position of the recall layout
    that holds it. *)
Theorem setupOddOneOutRound_odd_one_out (fuel : nat) (count : Z)
    (s : session) (w : world) (rl : round_locals) (s' : session)
    (w' : world) :
  setupOddOneOutRound fuel count s w = Some (rl, s', w') ->
  let numbers := deref (originalGridNumbers s') w' in
  let recall := deref (preparedRecallNumbers s') w' in
  let v := newChangedValue rl in
  (v ∉ numbers) /\
  (index numbers (originalIndexToChange rl) ≠ Some v) /\
  filter (fun x => x ∉ numbers) recall = [v] /\
  exists i : Z,
    changedTileIndex s' = Some i /\
    0 <= i < Z.of_nat (length recall) /\
    index recall i = Some v.
Proof.
  rewrite setupOddOneOutRound_values.
  destruct (round_values fuel count (random w)) as [rv|] eqn:Hrv; [|done].
  simpl. intros [= <- <- <-]. simpl.
  rewrite !deref_offset. simpl.
  apply round_values_Some in Hrv
    as (_ & Hv & Hidx & [Hidx0 _] & _ & Hassign & Hperm & Hci).
  split_and!; try done.
  - apply Permutation_singleton_r.
    rewrite Hperm.
    by rewrite (assign_filter_absent _ _ _ _ Hidx0 Hv Hassign).
  - exists (changedIndex rv). split; [done |].
    rewrite Hci. apply indexOf_elem.
    rewrite Hperm. by eapply assign_elem.
Qed.


(** C9. The setup works on copies: the array kept as [originalGridNumbers]
    holds, element for element, the sequence the draw returned, and so does
    [initialNumbers]; the array that is changed and sorted is another object
    than these two; and every array that existed before the setup is as it
    was. *)
Theorem setupOddOneOutRound_keeps_original (fuel : nat) (count : Z)
    (s : session) (w : world) (rl : round_locals) (s' : session)
    (w' : world) :
  setupOddOneOutRound fuel count s w = Some (rl, s', w') ->
  deref (originalGridNumbers s') w' = drawn count w /\
  deref (initialNumbers rl) w' = drawn count w /\
  deref (currentGridNumbers s') w' = drawn count w /\
  finalRecallNumbers rl ≠ originalGridNumbers s' /\
  finalRecallNumbers rl ≠ initialNumbers rl /\
  preparedRecallNumbers s' = finalRecallNumbers rl /\
  forall l : loc, (l < length (heap w))%nat -> deref l w' = deref l w.
Proof.
  rewrite setupOddOneOutRound_values, drawn_eq.
  destruct (round_values fuel count (random w)) as [rv|] eqn:Hrv; [|done].
  simpl. intros [= <- <- <-]. simpl.
  rewrite !deref_offset. simpl.
  apply round_values_Some in Hrv as (Horig & _).
  split_and!; try done; try lia.
  intros l Hl. destruct w as [h rnd]. simpl in *.
  by apply deref_app_old.
Qed.

(** C8. The draw and the setup take their randomness from the random source
    of the world they run in and from nowhere else: with the generator fixed
    (the same sequence of [Math.random] values), two runs on the same count
    return the same numbers and build the same round, whatever the two heaps
    and sessions are. *)
Theorem draw_and_setup_determined_by_random (fuel : nat) (count : Z)
    (s1 s2 : session) (w1 w2 : world) :
  random w1 = random w2 ->
  drawn count w1 = drawn count w2 /\
  round_of <$> setupOddOneOutRound fuel count s1 w1
  = round_of <$> setupOddOneOutRound fuel count s2 w2.
Proof.
  intros Hrandom. rewrite !drawn_eq, !setupOddOneOutRound_values, Hrandom.
  split; [done |].
  destruct (round_values fuel count (random w2)) as [rv|]; [|done].
  simpl. by rewrite !deref_offset.
Qed.

End RoundProperties.

(** ** Sample runs *)

Lemma generateUniqueNumbers_distinct_witness :
  0 <= 4 /\
  NoDup (@drawn insertion_engine 4 Sample.fresh_world) /\
  Z.of_nat (length (@drawn insertion_engine 4 Sample.fresh_world)) = 4.
Proof.
  destruct (generateUniqueNumbers_distinct (H := insertion_engine) 4
              Sample.fresh_world ltac:(lia)) as (Hnodup & _ & Hlen & _).
  split; [lia |]. split; [exact Hnodup | apply Hlen; lia].
Defined.

Lemma setupOddOneOutRound_odd_one_out_witness :
  exists rl s' w',
    @setupOddOneOutRound insertion_engine 5 4 Sample.mounted.1
      Sample.mounted.2 = Some (rl, s', w') /\
    filter (fun x => x ∉ deref (originalGridNumbers s') w')
      (deref (preparedRecallNumbers s') w') = [newChangedValue rl].
Proof.
  eexists _, _, _. split; [vm_compute; reflexivity |].
  eapply (setupOddOneOutRound_odd_one_out (H := insertion_engine) 5 4
            Sample.mounted.1 Sample.mounted.2).
  vm_compute; reflexivity.
Defined.


Lemma setupOddOneOutRound_keeps_original_witness :
  exists rl s' w',
    @setupOddOneOutRound insertion_engine 5 4 Sample.mounted.1
      Sample.mounted.2 = Some (rl, s', w') /\
    deref (originalGridNumbers s') w'
    = @drawn insertion_engine 4 Sample.mounted.2.
Proof.
  eexists _, _, _. split; [vm_compute; reflexivity |].
  eapply (setupOddOneOutRound_keeps_original (H := insertion_engine) 5 4
            Sample.mounted.1 Sample.mounted.2).
  vm_compute; reflexivity.
Defined.

Lemma draw_and_setup_determined_by_random_witness :
  random Sample.fresh_world = random Sample.recall_world /\
  @drawn insertion_engine 4 Sample.fresh_world
  = @drawn insertion_engine 4 Sample.recall_world.
Proof.
  split; [reflexivity |].
  apply (draw_and_setup_determined_by_random (H := insertion_engine) 5 4
           Sample.mounted.1 (Sample.recall_session 0 None)
           Sample.fresh_world Sample.recall_world eq_refl).
Defined.

(** ** Termination, and the rest of the handlers *)

(** The setup returns as soon as [Math.random] yields a number that is not
    among the drawn ones: with [k] such draws wasted, any fuel above [k] is
    enough. *)
Lemma setupOddOneOutRound_terminates `{SortEngine} (fuel : nat) (count : Z)
    (s : session) (w : world) (k : nat) :
  (k < fuel)%nat ->
  floor_mul ((drawn_values count (random w)).2 (S k)) NUMBER_POOL_MAX + 1
    ∉ (drawn_values count (random w)).1.2 ->
  is_Some (setupOddOneOutRound fuel count s w).
Proof.
  intros Hk Hv. rewrite setupOddOneOutRound_values.
  destruct (round_values_terminates fuel count (random w) k Hk Hv) as [rv ->].
  simpl. eauto.
Qed.

(** When the count reaches the size of the pool every candidate is among the
    drawn numbers and the loop of the setup never exits: no fuel is enough. *)
Lemma pick_value_full_pool (fuel : nat) (initial : list Z) (idx : Z)
    (rnd : stream) :
  (forall x, 1 <= x <= NUMBER_POOL_MAX -> x ∈ initial) ->
  pick_value fuel initial idx rnd = None.
Proof.
  intros Hfull. revert rnd. induction fuel as [|fuel IH]; intros rnd; simpl;
    [done |].
  assert (includes initial (floor_mul (rnd 0%nat) NUMBER_POOL_MAX + 1) = true)
    as ->; [|by rewrite IH].
  apply includes_true, Hfull.
  pose proof (floor_mul_range (rnd 0%nat) NUMBER_POOL_MAX).
  unfold NUMBER_POOL_MAX in *. lia.
Qed.

Lemma setupOddOneOutRound_full_pool `{SortEngine} (fuel : nat) (count : Z)
    (s : session) (w : world) :
  NUMBER_POOL_MAX <= count -> setupOddOneOutRound fuel count s w = None.
Proof.
  intros Hcount. rewrite setupOddOneOutRound_values. unfold round_values.
  pose proof (drawn_values_pool count (random w)) as Hpool.
  pose proof (drawn_values_slice count (random w)) as Hslice.
  destruct (drawn_values count (random w)) as [[p numbers] rnd1].
  simpl in *. rewrite pick_value_full_pool; [done |].
  intros x Hx. rewrite Hslice, Z.min_r by done.
  rewrite slice_prefix by (unfold NUMBER_POOL_MAX; lia).
  rewrite take_ge.
  - rewrite Hpool. by apply elem_of_Array_from_succ.
  - rewrite Hpool, Array_from_succ_length. done.
Qed.

(** The counts the tile buttons pass to the setup. *)
Lemma countOptions_range (d : option level) (count : Z) :
  count ∈ countOptions d -> 4 <= count <= 16.
Proof.
  destruct d as [[| |]|]; simpl; intros Hc;
    repeat (apply elem_of_cons in Hc as [-> | Hc]; [lia |]);
    by apply elem_of_nil in Hc.
Qed.

(** Clicks on tiles are ignored outside the recall phase. *)
Lemma handleTileClick_outside_recall (i : Z) (s : session) :
  gameState s ≠ State.odd_one_out_recall -> handleTileClick i s = s.
Proof. unfold handleTileClick. by destruct (gameState s). Qed.

(** A negative argument makes [slice] count from the end of the pool. *)
Example drawn_negative_count :
  length (@drawn insertion_engine (-1) Sample.fresh_world) = 99%nat.
Proof. vm_compute. reflexivity. Qed.

(** The scenario of the recall phase on [3; 17; 42; 88] with 42 turned into
    55: the tile holding 55 is at index 2 of the recall layout. *)
Example submit_changed_tile :
  let s := handleSubmitRecall (Sample.recall_session 0 (Some 2))
             Sample.recall_world in
  gameState s = State.round_win /\ totalScore s = 20 /\ roundScore s = 20 /\
  modalMessage s = "Round Complete! Total Score: 20." /\
  modalActions s = [homeAction; nextRoundAction].
Proof. vm_compute. done. Qed.

Example submit_other_tile :
  let s := handleSubmitRecall (Sample.recall_session 40 (Some 1))
             Sample.recall_world in
  gameState s = State.game_over /\ totalScore s = 40 /\
  feedbackMessage s = "Wrong! The changed number was: 55".
Proof. vm_compute. done. Qed.

(** A whole round from the first render: easy, four tiles, the timer, a click
    on the changed tile, submit. *)
Example first_round_won :
  let '(s, w) := Sample.mounted in
  let s := setGameState State.difficulty s in
  let s := handleDifficultySelect easy s in
  match handleNumTilesSelect (H := insertion_engine) 5 4 s w with
  | Some (s, w) =>
      let s := memorizeTimer_fired s in
      let s := handleTileClick 3 s in
      let s := handleSubmitRecall s w in
      deref (originalGridNumbers s) w = [3; 100; 99; 98] /\
      deref (currentGridNumbers s) w = [99; 98; 3; 76] /\
      gameState s = State.round_win /\ totalScore s = 20
  | None => False
  end.
Proof. vm_compute. done. Qed.

(** ** The grid and the countdown *)

Lemma ceil_sqrt_spec (n : Z) :
  1 <= n ->
  1 <= ceil_sqrt n /\ n <= ceil_sqrt n * ceil_sqrt n /\
  (ceil_sqrt n - 1) * (ceil_sqrt n - 1) < n.
Proof.
  intros Hn. unfold ceil_sqrt.
  pose proof (Z.sqrt_spec n ltac:(lia)) as Hs.
  pose proof (Z.sqrt_nonneg n) as Hr.
  unfold Z.succ in Hs. set (r := Z.sqrt n) in *.
  destruct (Z.eqb_spec (r * r) n) as [Heq | Hne].
  - assert (1 <= r) by nia. split_and!; [lia | lia | nia].
  - replace (r + 1 - 1) with r by lia. split_and!; lia.
Qed.

(** X1. With [n >= 1] tiles the grid has a side [d >= 3] with room for all
    of them ([n <= d * d]), the smallest such side; and the container gets a
    column class exactly when [n <= 16]: 3 columns up to 9 tiles, 4 columns
    from 10 to 16, none beyond. *)
Theorem currentGridDimension_fits (s : session) (n : Z) :
  numTiles s = Some n ->
  1 <= n < 2 ^ 52 ->
  exists d : Z,
    currentGridDimension s = Some d /\
    3 <= d /\ n <= d * d /\ (d = 3 \/ (d - 1) * (d - 1) < n) /\
    (n <= 9 -> grid_cols (Some d) = "grid-cols-3") /\
    (10 <= n <= 16 -> grid_cols (Some d) = "grid-cols-4") /\
    (16 < n -> grid_cols (Some d) = EmptyString).
Proof.
  intros Hnum [Hn _]. unfold currentGridDimension. rewrite Hnum.
  assert ((n =? 0) = false) as -> by lia.
  assert ((n <? 0) = false) as -> by lia.
  destruct (ceil_sqrt_spec n Hn) as (Hc1 & Hc2 & Hc3).
  exists (Z.max 3 (ceil_sqrt n)). split; [done |].
  assert (Hcases : ceil_sqrt n <= 3 \/ 4 <= ceil_sqrt n) by lia.
  unfold grid_cols.
  destruct Hcases as [Hle | Hge].
  - rewrite Z.max_l by lia.
    split; [lia |]. split; [nia |]. split; [by left |].
    split; [done |]. split; intros; nia.
  - rewrite Z.max_r by lia.
    split; [lia |]. split; [lia |]. split; [right; lia |].
    split; [intros; nia |]. split.
    + intros Hn16. assert (ceil_sqrt n = 4) as -> by nia. done.
    + intros Hn16. assert (5 <= ceil_sqrt n) by nia.
      rewrite !bool_decide_eq_false_2; [done | |]; intros [= Heq]; lia.
Qed.

Lemma currentGridDimension_fits_witness :
  let s := setNumTiles (Some 10) (Sample.recall_session 0 None) in
  1 <= 10 < 2 ^ 52 /\
  exists d : Z, currentGridDimension s = Some d /\ 10 <= d * d.
Proof.
  split; [lia |].
  destruct (currentGridDimension_fits
              (setNumTiles (Some 10) (Sample.recall_session 0 None)) 10
              eq_refl ltac:(lia)) as (d & Hd & _ & Hfit & _).
  by exists d.
Defined.

Lemma countdown_tick_countdown (s : session) :
  countdown (countdown_tick s)
  = if countdown s <=? 1 then 0 else countdown s - 1.
Proof. done. Qed.

Lemma countdown_tick_iter (k : nat) (s : session) :
  countdown (Nat.iter (S k) countdown_tick s)
  = Z.max (countdown s - Z.of_nat (S k)) 0.
Proof.
  induction k as [|k IH].
  - change (Nat.iter 1 countdown_tick s) with (countdown_tick s).
    rewrite countdown_tick_countdown.
    destruct (Z.leb_spec (countdown s) 1); lia.
  - change (Nat.iter (S (S k)) countdown_tick s)
      with (countdown_tick (Nat.iter (S k) countdown_tick s)).
    rewrite countdown_tick_countdown, IH.
    destruct (Z.leb_spec (Z.max (countdown s - Z.of_nat (S k)) 0) 1); lia.
Qed.

(** X2. The countdown started by the effect shows the whole seconds of the
    memorize time that are left: after [k] firings of the interval it is
    [max (memorizeTime / 1000 - k, 0)], it is never negative, and it is 0
    exactly from the firing at which the memorize time has elapsed. *)
Theorem countdown_counts_memorizeTime (s : session) (k : nat) :
  let c := countdown (Nat.iter k countdown_tick (memorize_effect s)) in
  c = Z.max (memorizeTime (difficulty s) `div` 1000 - Z.of_nat k) 0 /\
  0 <= c /\
  (c = 0 <-> memorizeTime (difficulty s) <= 1000 * Z.of_nat k).
Proof.
  assert (Hstart : countdown (memorize_effect s)
                   = memorizeTime (difficulty s) `div` 1000) by done.
  assert (Htime : memorizeTime (difficulty s)
                  = 1000 * (memorizeTime (difficulty s) `div` 1000)
                  /\ 0 < memorizeTime (difficulty s) `div` 1000).
  { destruct (difficulty s) as [[| |]|]; by vm_compute. }
  destruct Htime as [Htime Hpos].
  destruct k as [|k].
  - cbv zeta.
    change (Nat.iter 0 countdown_tick (memorize_effect s))
      with (memorize_effect s).
    rewrite Hstart. lia.
  - cbv zeta. rewrite countdown_tick_iter, Hstart. lia.
Qed.

(** ** More on the draw and the setup *)

Lemma assign_elem_inv (a changed : list Z) (i v x : Z) :
  assign a i v = Some changed -> x ∈ changed -> x = v \/ x ∈ a.
Proof.
  unfold assign. repeat case_match; intros [= <-] Hx; try done.
  - by right.
  - apply list_elem_of_lookup in Hx as [j Hj].
    destruct (decide (j = Z.to_nat i)) as [-> | Hne].
    + rewrite list_lookup_insert_eq in Hj by lia. left. congruence.
    + rewrite list_lookup_insert_ne in Hj by done.
      right. by eapply list_elem_of_lookup_2.
  - apply elem_of_app in Hx as [Hx | Hx]; [by right |].
    left. by apply list_elem_of_singleton in Hx.
Qed.

Lemma assign_NoDup (a changed : list Z) (i v : Z) :
  NoDup a -> v ∉ a -> assign a i v = Some changed -> NoDup changed.
Proof.
  intros Hnd Hv. unfold assign. repeat case_match; intros [= <-]; try done.
  - rewrite insert_take_drop by lia.
    rewrite <- (take_drop (Z.to_nat i) a) in Hnd.
    apply NoDup_app in Hnd as (Htake & Hdisj & Hdrop).
    apply NoDup_app. split_and!; [done | |].
    + intros x Hx [-> | Hd]%elem_of_cons.
      * apply Hv. eapply subseteq_take, Hx.
      * apply (Hdisj x Hx). eapply subseteq_drop.
        rewrite drop_drop. by replace (Z.to_nat i + 1)%nat
          with (S (Z.to_nat i)) by lia.
    + apply NoDup_cons. split.
      * intros Hd. apply Hv. eapply subseteq_drop, Hd.
      * eapply sublist_NoDup; [exact Hdrop |].
        replace (S (Z.to_nat i)) with (Z.to_nat i + 1)%nat by lia.
        rewrite <- drop_drop. apply sublist_drop.
  - apply NoDup_app. split_and!; [done | | apply NoDup_singleton].
    intros x Hx ->%list_elem_of_singleton. done.
Qed.

(** The element that [a[i] = v] overwrites is gone, the others stay. *)
Lemma insert_NoDup_elem (a : list Z) (i : nat) (v old x : Z) :
  NoDup a -> a !! i = Some old -> v ∉ a ->
  x ∈ <[i := v]> a <-> x = v \/ (x ∈ a /\ x ≠ old).
Proof.
  intros Hnd Hold Hv. split.
  - intros [j Hj]%list_elem_of_lookup.
    destruct (decide (j = i)) as [-> | Hne].
    + rewrite list_lookup_insert_eq in Hj by by eapply lookup_lt_Some.
      left. congruence.
    + rewrite list_lookup_insert_ne in Hj by done. right. split.
      * by eapply list_elem_of_lookup_2.
      * intros ->. apply Hne. by eapply NoDup_lookup.
  - intros [-> | [[j Hj]%list_elem_of_lookup Hne]].
    + apply list_elem_of_lookup. exists i.
      apply list_lookup_insert_eq. by eapply lookup_lt_Some.
    + apply list_elem_of_lookup. exists j.
      rewrite list_lookup_insert_ne; [done |]. intros ->. congruence.
Qed.

Section MoreRound.

Context `{SortEngine}.

Lemma round_values_range (fuel : nat) (count : Z) (rnd : stream) (rv : round) :
  round_values fuel count rnd = Some rv ->
  1 <= changedValue rv <= NUMBER_POOL_MAX /\
  NoDup (original rv) /\
  (forall x, x ∈ original rv -> 1 <= x <= NUMBER_POOL_MAX).
Proof.
  intros Hrv.
  pose proof (round_values_Some _ _ _ _ Hrv) as (Horig & _).
  split; [|rewrite Horig; split;
           [apply drawn_values_NoDup | apply drawn_values_range]].
  revert Hrv. unfold round_values.
  destruct (drawn_values count rnd) as [[p numbers] rnd1]. simpl.
  destruct (pick_value fuel numbers _ (shift rnd1)) as [[v rnd2]|] eqn:Hpick;
    [|done].
  simpl. destruct (assign numbers _ v) as [changed|]; [|done].
  simpl. destruct (shuffle changed rnd2). intros [= <-]. simpl.
  by apply pick_value_Some in Hpick as (_ & _ & Hrange).
Qed.

(** A finished setup, read on the values of the round. *)
Lemma setupOddOneOutRound_Some (fuel : nat) (count : Z) (s : session)
    (w : world) (rl : round_locals) (s' : session) (w' : world) :
  setupOddOneOutRound fuel count s w = Some (rl, s', w') ->
  exists rv : round,
    round_values fuel count (random w) = Some rv /\
    deref (originalGridNumbers s') w' = original rv /\
    deref (preparedRecallNumbers s') w' = recallLayout rv /\
    deref (currentGridNumbers s') w' = original rv /\
    changedTileIndex s' = Some (changedIndex rv) /\
    newChangedValue rl = changedValue rv /\
    originalIndexToChange rl = indexToChange rv /\
    s' = Session (gameState s) (difficulty s) (numTiles s)
           (length (heap w) + 2)%nat (length (heap w) + 4)%nat
           (length (heap w) + 3)%nat
           (Some (changedIndex rv)) None 0 (totalScore s) (feedbackMessage s)
           (showModal s) (modalMessage s) (modalActions s) (countdown s) /\
    heap w' = heap w ++ [pool rv; original rv; original rv; recallLayout rv;
                         original rv].
Proof.
  rewrite setupOddOneOutRound_values.
  destruct (round_values fuel count (random w)) as [rv|] eqn:Hrv; [|done].
  simpl. intros [= <- <- <-]. exists rv. simpl.
  rewrite !deref_offset. simpl. by split_and!.
Qed.

(** The recall layout of a round: distinct numbers, those of the original
    array but for one, and the changed value at [changedIndex]. *)
Lemma round_values_recall (fuel : nat) (count : Z) (rnd : stream) (rv : round) :
  round_values fuel count rnd = Some rv ->
  NoDup (recallLayout rv) /\
  (forall x, x ∈ recallLayout rv ->
     x = changedValue rv \/ x ∈ original rv) /\
  0 <= changedIndex rv < Z.of_nat (length (recallLayout rv)) /\
  index (recallLayout rv) (changedIndex rv) = Some (changedValue rv).
Proof.
  intros Hrv.
  pose proof (round_values_range _ _ _ _ Hrv) as (_ & Hnd & _).
  apply round_values_Some in Hrv
    as (_ & Hnew & _ & [Hidx0 _] & _ & Hassign & Hperm & Hci).
  split; [|split; [|split]].
  - rewrite Hperm. by eapply assign_NoDup.
  - intros x Hx. rewrite Hperm in Hx. by eapply assign_elem_inv.
  - rewrite Hci. apply indexOf_elem. rewrite Hperm. by eapply assign_elem.
  - rewrite Hci. apply indexOf_elem. rewrite Hperm. by eapply assign_elem.
Qed.

(** With at least one tile asked for, the recall layout is the original
    array with one element overwritten, in another order. *)
Lemma round_values_insert (fuel : nat) (count : Z) (rnd : stream) (rv : round) :
  1 <= count ->
  round_values fuel count rnd = Some rv ->
  Z.of_nat (length (original rv)) = Z.min count NUMBER_POOL_MAX /\
  0 <= indexToChange rv < Z.of_nat (length (original rv)) /\
  recallLayout rv
    ≡ₚ <[Z.to_nat (indexToChange rv) := changedValue rv]> (original rv).
Proof.
  intros Hcount Hrv.
  apply round_values_Some in Hrv
    as (Horig & _ & _ & [Hidx0 _] & Hidx & Hassign & Hperm & _).
  assert (Z.of_nat (length (original rv)) = Z.min count NUMBER_POOL_MAX)
    as Hlen.
  { rewrite Horig, drawn_values_length by lia. unfold NUMBER_POOL_MAX. lia. }
  assert (original rv ≠ []) as Hne.
  { intros Hnil. rewrite Hnil in Hlen. unfold NUMBER_POOL_MAX in Hlen.
    simpl in Hlen. lia. }
  specialize (Hidx Hne).
  rewrite assign_inside in Hassign by lia. injection Hassign as Hassign.
  rewrite <- Hassign in Hperm. split_and!; [done | lia | lia | done].
Qed.

(** X3. In every round built by the setup, the numbers of the recall layout
    are pairwise distinct integers of [1, 100]. *)
Theorem setupOddOneOutRound_recall_distinct (fuel : nat) (count : Z)
    (s : session) (w : world) (rl : round_locals) (s' : session)
    (w' : world) :
  setupOddOneOutRound fuel count s w = Some (rl, s', w') ->
  NoDup (deref (preparedRecallNumbers s') w') /\
  Forall (fun x => 1 <= x <= 100) (deref (preparedRecallNumbers s') w').
Proof.
  intros (rv & Hrv & _ & -> & _)%setupOddOneOutRound_Some.
  pose proof (round_values_range _ _ _ _ Hrv) as (Hv & _ & Hrange).
  apply round_values_recall in Hrv as (Hnd & Helem & _).
  split; [done |].
  apply Forall_forall. intros x [-> | Hx]%Helem; [done | by apply Hrange].
Qed.

(** X4. In every round built by the setup there is one right answer: a
    position of the recall layout whose number is not among the original
    numbers is [changedTileIndex]. *)
Theorem setupOddOneOutRound_one_answer (fuel : nat) (count : Z)
    (s : session) (w : world) (rl : round_locals) (s' : session)
    (w' : world) (j x : Z) :
  setupOddOneOutRound fuel count s w = Some (rl, s', w') ->
  index (deref (preparedRecallNumbers s') w') j = Some x ->
  (x ∉ deref (originalGridNumbers s') w') ->
  changedTileIndex s' = Some j.
Proof.
  intros (rv & Hrv & -> & -> & _ & -> & _)%setupOddOneOutRound_Some Hj Hx.
  apply round_values_recall in Hrv as (Hnd & Helem & Hci & Hciv).
  unfold index in Hj, Hciv.
  destruct (Z.ltb_spec j 0); [done |].
  destruct (Z.ltb_spec (changedIndex rv) 0); [lia |].
  destruct (Helem x) as [-> | Hin]; [by eapply list_elem_of_lookup_2 | | done].
  f_equal. pose proof (NoDup_lookup _ _ _ _ Hnd Hj Hciv). lia.
Qed.

(** X5. In every round built by the setup for a count of at least one tile,
    the number that was replaced is not in the recall layout any more, and
    every other original number still is. *)
Theorem setupOddOneOutRound_replaced_gone (fuel : nat) (count : Z)
    (s : session) (w : world) (rl : round_locals) (s' : session)
    (w' : world) :
  1 <= count ->
  setupOddOneOutRound fuel count s w = Some (rl, s', w') ->
  let numbers := deref (originalGridNumbers s') w' in
  let recall := deref (preparedRecallNumbers s') w' in
  exists old : Z,
    index numbers (originalIndexToChange rl) = Some old /\
    (old ∉ recall) /\
    forall x, x ∈ numbers -> x ≠ old -> x ∈ recall.
Proof.
  intros Hcount
    (rv & Hrv & -> & -> & _ & _ & _ & -> & _)%setupOddOneOutRound_Some.
  cbv zeta.
  pose proof (round_values_range _ _ _ _ Hrv) as (_ & Hnd & _).
  pose proof (round_values_insert _ _ _ _ Hcount Hrv) as (_ & Hidx & Hperm).
  apply round_values_Some in Hrv as (_ & Hnew & _).
  destruct (lookup_lt_is_Some_2 (original rv)
              (Z.to_nat (indexToChange rv)) ltac:(lia)) as [old Hold].
  exists old. split_and!.
  - unfold index. by destruct (Z.ltb_spec (indexToChange rv) 0); [lia |].
  - rewrite Hperm, (insert_NoDup_elem _ _ _ old) by done.
    intros [-> | [_ Hne]]; [|done].
    apply Hnew. by eapply list_elem_of_lookup_2.
  - intros x Hx Hne.
    rewrite Hperm, (insert_NoDup_elem _ _ _ old) by done. by right.
Qed.


End MoreRound.

(** ** The handlers *)

Section Handlers.

Context `{SortEngine}.


(** X9. Choosing a tile count shows, in the memorize phase, exactly that
    many pairwise distinct numbers of [1, 100], which are the original
    numbers of the round; the count is recorded and the score is left as it
    is. *)
Theorem handleNumTilesSelect_shows_count (fuel : nat) (count : Z)
    (s : session) (w : world) (s' : session) (w' : world) :
  0 <= count ->
  handleNumTilesSelect fuel count s w = Some (s', w') ->
  let shown := deref (currentGridNumbers s') w' in
  gameState s' = State.memorize_original /\
  numTiles s' = Some count /\
  totalScore s' = totalScore s /\
  shown = deref (originalGridNumbers s') w' /\
  Z.of_nat (length shown) = count /\
  NoDup shown /\
  Forall (fun x => 1 <= x <= 100) shown.
Proof.
  intros Hcount. unfold handleNumTilesSelect.
  destruct (setupOddOneOutRound fuel count _ w)
    as [[[rl s1] w1]|] eqn:Hsetup; [|done].
  simpl. intros [= <- <-].
  assert (count < NUMBER_POOL_MAX) as Hlt.
  { destruct (decide (NUMBER_POOL_MAX <= count)) as [Hge|]; [|lia].
    by rewrite setupOddOneOutRound_full_pool in Hsetup. }
  apply setupOddOneOutRound_Some in Hsetup
    as (rv & Hrv & Horig & _ & Hcur & _ & _ & _ & Hs1 & _).
  change (deref (currentGridNumbers (setGameState State.memorize_original s1))
            w1) with (deref (currentGridNumbers s1) w1).
  change (deref (originalGridNumbers (setGameState State.memorize_original s1))
            w1) with (deref (originalGridNumbers s1) w1).
  rewrite Hcur, Horig. rewrite Hs1. simpl.
  pose proof (round_values_range _ _ _ _ Hrv) as (_ & Hnd & Hrange).
  apply round_values_Some in Hrv as (Hdrawn & _).
  split_and!; try done.
  - rewrite Hdrawn, drawn_values_length by done. lia.
  - by apply Forall_forall.
Qed.

End Handlers.

(** ** What holds on every page that can come up *)

Lemma run_effect_other (s s' : session) :
  gameState s' ≠ State.memorize_original -> run_effect s s' = s'.
Proof.
  intros Hg. unfold run_effect.
  by rewrite (bool_decide_eq_false_2 _ Hg), andb_false_r.
Qed.

Lemma run_effect_new_round (s s' : session) :
  preparedRecallNumbers s ≠ preparedRecallNumbers s' ->
  gameState s' = State.memorize_original ->
  run_effect s s' = memorize_effect s'.
Proof.
  intros Hp Hg. unfold run_effect, effect_deps_changed.
  rewrite (bool_decide_eq_false_2 _ Hp), andb_false_r.
  by rewrite (bool_decide_eq_true_2 _ Hg).
Qed.

Section Invariant.

Context `{SortEngine}.

Lemma round_values_ok (fuel : nat) (n : Z) (rnd : stream) (rv : round) :
  4 <= n <= 16 ->
  round_values fuel n rnd = Some rv ->
  round_ok n (original rv) (recallLayout rv) (Some (changedIndex rv)).
Proof.
  intros Hn Hrv.
  pose proof (round_values_range _ _ _ _ Hrv) as (Hv & Hnd & Hrange).
  pose proof (round_values_recall _ _ _ _ Hrv) as (Hrnd & _ & Hci & Hciv).
  pose proof (round_values_insert fuel n rnd rv ltac:(lia) Hrv)
    as (Hlen & Hidx & Hperm).
  apply round_values_Some in Hrv as (_ & Hnew & _).
  unfold NUMBER_POOL_MAX in *.
  assert (Z.of_nat (length (original rv)) = n) as Hlen' by lia.
  assert (length (recallLayout rv) = length (original rv)) as Hrlen
    by by rewrite Hperm, length_insert.
  unfold round_ok. split_and!; try done; try lia.
  exists (changedIndex rv), (changedValue rv), (indexToChange rv).
  split_and!; try done; lia.
Qed.

(** A new round from a page that satisfies the invariant. *)
Lemma page_inv_new_round (fuel : nat) (n : Z) (s0 s : session) (w : world)
    (rl : round_locals) (s1 : session) (w1 : world) :
  4 <= n <= 16 ->
  (preparedRecallNumbers s0 < length (heap w))%nat ->
  preparedRecallNumbers s = preparedRecallNumbers s0 ->
  numTiles s = Some n ->
  0 <= totalScore s /\ totalScore s `mod` 20 = 0 ->
  setupOddOneOutRound fuel n s w = Some (rl, s1, w1) ->
  page_inv
    (run_effect s0
       (setFeedbackMessage EmptyString
          (setGameState State.memorize_original s1)), w1) /\
  page_inv (run_effect s0 (setGameState State.memorize_original s1), w1).
Proof.
  intros Hn Hp Hps Hnum Hscore Hsetup.
  apply setupOddOneOutRound_Some in Hsetup
    as (rv & Hrv & Horig & Hrecall & Hcur & _ & _ & _ & Hs1 & Hheap).
  pose proof (round_values_ok _ _ _ _ Hn Hrv) as Hok.
  rewrite !run_effect_new_round by (rewrite Hs1; simpl; first [lia | done]).
  assert (Hgoal : forall s2, originalGridNumbers s2 = originalGridNumbers s1 ->
            currentGridNumbers s2 = currentGridNumbers s1 ->
            preparedRecallNumbers s2 = preparedRecallNumbers s1 ->
            changedTileIndex s2 = changedTileIndex s1 ->
            numTiles s2 = Some n -> totalScore s2 = totalScore s ->
            selectedTileIndex s2 = None -> roundScore s2 = 0 ->
            gameState s2 = State.memorize_original ->
            showModal s2 = false ->
            feedbackMessage s2 = "Observe the numbers!" ->
            page_inv (s2, w1)).
  { intros s2 Ho Hc Hpr Hci Hn2 Hts Hsel Hrs Hg Hsm Hfm.
    unfold page_inv, state_inv.
    rewrite Hg, Hn2, Ho, Hc, Hpr, Hci, Hts, Hsel, Hrs, Hsm, Hfm.
    rewrite Horig, Hrecall, Hcur, Hheap, length_app.
    rewrite Hs1. simpl. split_and!; try done; lia. }
  split; apply Hgoal; rewrite ?Hs1; simpl; done.
Qed.

Lemma page_inv_mount (w : world) : page_inv (mount w).
Proof.
  unfold mount, alloc, page_inv, state_inv. simpl.
  rewrite !length_app. simpl. split_and!; try done; lia.
Qed.


Lemma run_effect_unchanged (s s' : session) :
  gameState s' = gameState s ->
  difficulty s' = difficulty s ->
  preparedRecallNumbers s' = preparedRecallNumbers s ->
  run_effect s s' = s'.
Proof.
  intros Hg Hd Hp. unfold run_effect, effect_deps_changed.
  rewrite Hg, Hd, Hp. by rewrite !bool_decide_eq_true_2 by done.
Qed.

Lemma round_ok_changed (n : Z) (numbers recall : list Z) (changed : option Z) :
  round_ok n numbers recall changed -> is_Some changed.
Proof. intros (_ & _ & _ & _ & _ & ci & _ & _ & -> & _). eauto. Qed.

Lemma mod_20_award (t : Z) : t `mod` 20 = 0 -> (t + 20) `mod` 20 = 0.
Proof.
  intros Ht. replace (t + 20) with (t + 1 * 20) by lia.
  by rewrite Z_mod_plus_full.
Qed.

Ltac page_simple :=
  unfold page_inv, state_inv, round_over, grid_shown, changed_number,
    BASE_SCORE_PER_CORRECT, TOTAL_SCORE_TO_WIN in *;
  simpl in *; subst; simpl in *;
  repeat case_match; simplify_eq; simpl in *;
  destruct_and?;
  repeat match goal with
    | H : bool_decide _ = true |- _ => apply bool_decide_eq_true in H
    | H : bool_decide _ = false |- _ => apply bool_decide_eq_false in H
    | H : round_ok _ _ _ None |- _ =>
        apply round_ok_changed in H; by destruct H
    end;
  simplify_eq; split_and?; try done; try lia; try congruence;
  try (by apply mod_20_award);
  try match goal with
    | H : round_ok _ _ _ _ |- _ => destruct H as [[? ?] _]; lia
    end.

Lemma page_inv_step (fuel : nat) (e : event) (a a' : session * world) :
  page_inv a -> step fuel e a = Some a' -> page_inv a'.
Proof.
  destruct a as [s w], a' as [s' w']. intros Hinv. unfold step.
  destruct (rendered e s) eqn:Hr; [|done].
  destruct e; simpl in Hr |- *.
  - (* Start Game *)
    apply bool_decide_eq_true in Hr. intros [= <- <-].
    rewrite run_effect_other by done.
    destruct s. page_simple.
  - (* a difficulty *)
    apply bool_decide_eq_true in Hr. intros [= <- <-].
    rewrite run_effect_other by done.
    destruct s. page_simple.
  - (* a tile count *)
    apply andb_true_iff in Hr as [Hg Hc].
    apply bool_decide_eq_true in Hg, Hc. apply countOptions_range in Hc.
    unfold handleNumTilesSelect.
    destruct (setupOddOneOutRound fuel count _ w)
      as [[[rl s1] w1]|] eqn:Hsetup; [|done].
    simpl. intros [= <- <-].
    eapply (page_inv_new_round fuel count s); [done | | | | | exact Hsetup];
      try done; destruct s; page_simple.
  - (* the interval *)
    apply bool_decide_eq_true in Hr. intros [= <- <-].
    rewrite run_effect_unchanged by done.
    destruct s. page_simple.
  - (* the timeout *)
    apply bool_decide_eq_true in Hr. intros [= <- <-].
    rewrite run_effect_other by done.
    destruct s. page_simple.
  - (* a tile *)
    apply andb_true_iff in Hr as [Hg Hi]. intros [= <- <-].
    rewrite run_effect_unchanged
      by (unfold handleTileClick; destruct (gameState s) eqn:Hgs; simpl;
          congruence).
    unfold handleTileClick.
    destruct s. page_simple; intros; simplify_eq; eauto with lia.
  - (* Submit *)
    apply bool_decide_eq_true in Hr. intros [= <- <-].
    rewrite run_effect_other
      by (unfold handleSubmitRecall; repeat case_match; simpl; congruence).
    unfold handleSubmitRecall.
    destruct s. page_simple.
  - (* Home, New Game *)
    intros [= <- <-]. rewrite run_effect_other by done.
    destruct s. page_simple.
  - (* Next Round, Try Again *)
    destruct (numTiles s) as [n|] eqn:Hn;
      [|destruct s; page_simple; congruence].
    unfold handleNextRoundOrTryAgain. simpl. rewrite Hn.
    destruct (setupOddOneOutRound fuel n _ w)
      as [[[rl s1] w1]|] eqn:Hsetup; [|done].
    simpl. intros [= <- <-].
    eapply (page_inv_new_round fuel n s); [| | | | | exact Hsetup];
      try done; destruct s; page_simple.
  - (* a button of the modal *)
    apply andb_true_iff in Hr as [Hmodal _].
    destruct (numTiles s) as [n|] eqn:Hn;
      [|destruct s; page_simple; congruence].
    assert (Hnext : forall s2 w2,
              handleNextRoundOrTryAgain fuel s w = Some (s2, w2) ->
              page_inv (run_effect s s2, w2)).
    { unfold handleNextRoundOrTryAgain. simpl. rewrite Hn.
      destruct (setupOddOneOutRound fuel n _ w)
        as [[[rl s1] w1]|] eqn:Hsetup; [|done].
      simpl. intros s2 w2 [= <- <-].
      eapply (page_inv_new_round fuel n s); [| | | | | exact Hsetup];
        try done; destruct s; page_simple. }
    destruct a.
    + intros [= <- <-]. rewrite run_effect_other by done.
      destruct s. page_simple.
    + destruct (handleNextRoundOrTryAgain fuel s w) as [[s1 w1]|]; [|done].
      simpl. intros [= <- <-]. by apply Hnext.
    + destruct (handleNextRoundOrTryAgain fuel s w) as [[s1 w1]|]; [|done].
      simpl. intros [= <- <-]. by apply Hnext.
Qed.

Lemma reachable_page_inv (a : session * world) : reachable a -> page_inv a.
Proof.
  induction 1 as [w | fuel e a a' _ IH Hstep].
  - apply page_inv_mount.
  - by eapply page_inv_step.
Qed.


Lemma run_reachable (fuel : nat) (es : list event) (a a' : session * world) :
  reachable a -> run fuel es a = Some a' -> reachable a'.
Proof.
  revert a. induction es as [|e es IH]; intros a Ha; simpl.
  - by intros [= <-].
  - destruct (step fuel e a) as [a1|] eqn:Hstep; [|done]. simpl.
    apply IH. by eapply reachable_step.
Qed.

Lemma index_seqZ (l : list Z) :
  (fun i => index l i) <$> seqZ 0 (Z.of_nat (length l)) = Some <$> l.
Proof.
  apply list_eq. intros i. rewrite !list_lookup_fmap.
  destruct (decide (i < length l)%nat) as [Hlt | Hge].
  - rewrite lookup_seqZ_lt by lia. simpl. unfold index.
    assert ((0 + Z.of_nat i <? 0) = false) as -> by lia.
    replace (Z.to_nat (0 + Z.of_nat i)) with i by lia.
    by destruct (lookup_lt_is_Some_2 l i Hlt) as [x ->].
  - rewrite lookup_seqZ_ge by lia. by rewrite lookup_ge_None_2 by lia.
Qed.

Lemma round_ok_recall_length (n : Z) (numbers recall : list Z)
    (changed : option Z) :
  round_ok n numbers recall changed -> Z.of_nat (length recall) = n.
Proof.
  intros (_ & Hlen & _ & _ & _ & ci & v & idx & _ & _ & _ & _ & _ & _ & Hperm).
  by rewrite Hperm, length_insert.
Qed.

Lemma round_ok_recall_range (n : Z) (numbers recall : list Z)
    (changed : option Z) (x : Z) :
  round_ok n numbers recall changed -> x ∈ recall -> 1 <= x <= 100.
Proof.
  intros (_ & Hlen & _ & Hrange & _ & ci & v & idx & _ & _ & _ & _ & Hv & Hidx
          & Hperm) Hx.
  rewrite Hperm in Hx. apply list_elem_of_lookup in Hx as [j Hj].
  destruct (decide (j = Z.to_nat idx)) as [-> | Hne].
  - rewrite list_lookup_insert_eq in Hj by lia. by simplify_eq.
  - rewrite list_lookup_insert_ne in Hj by done.
    apply Hrange. by eapply list_elem_of_lookup_2.
Qed.

(** X10. On every page that can come up the total score is a non-negative
    multiple of 20; it is between 20 and 80 in [round_win] and at least 100
    in [overall_win]. *)
Theorem reachable_score (s : session) (w : world) :
  reachable (s, w) ->
  (exists k : Z, 0 <= k /\ totalScore s = 20 * k) /\
  (gameState s = State.round_win -> 20 <= totalScore s <= 80) /\
  (gameState s = State.overall_win -> 100 <= totalScore s).
Proof.
  intros ((Hpos & Hmod) & _ & _ & _ & Hstate)%reachable_page_inv.
  assert (Hk : totalScore s = 20 * (totalScore s `div` 20))
    by (apply Z_div_exact_full_2; [done | exact Hmod]).
  split; [|split].
  - exists (totalScore s `div` 20). split; [by apply Z.div_pos | done].
  - intros Hg. unfold state_inv in Hstate. rewrite Hg in Hstate.
    destruct Hstate as (_ & _ & _ & _ & Hrange & _). lia.
  - intros Hg. unfold state_inv in Hstate. rewrite Hg in Hstate.
    by destruct Hstate as (_ & _ & _ & _ & Hrange & _).
Qed.

(** X11. On every page that can come up [numTiles] is [null] or one of 4 to
    16, it is set whenever the grid is shown, and the container of the grid
    has 3 or 4 columns. *)
Theorem reachable_numTiles (s : session) (w : world) :
  reachable (s, w) ->
  (forall n, numTiles s = Some n -> 4 <= n <= 16) /\
  (grid_shown (gameState s) = true -> is_Some (numTiles s)) /\
  (grid_cols (currentGridDimension s) = "grid-cols-3" \/
   grid_cols (currentGridDimension s) = "grid-cols-4").
Proof.
  intros (_ & _ & _ & Hround & _)%reachable_page_inv.
  unfold currentGridDimension.
  destruct (numTiles s) as [n|] eqn:Hn.
  - destruct Hround as [Hn4 _]. split; [|split].
    + by intros ? [= <-].
    + eauto.
    + assert ((n =? 0) = false) as -> by lia.
      assert ((n <? 0) = false) as -> by lia.
      destruct (ceil_sqrt_spec n ltac:(lia)) as (Hc1 & Hc2 & Hc3).
      assert (ceil_sqrt n <= 3 \/ ceil_sqrt n = 4) as [Hle | ->] by nia.
      * left. by rewrite Z.max_l by lia.
      * by right.
  - destruct Hround as [Hgrid _]. split; [done |]. split.
    + rewrite Hgrid. done.
    + by left.
Qed.

(** X12. While the grid is shown, in whatever phase, the arrays of the
    session make a well-formed round on [numTiles] tiles: that many pairwise
    distinct original numbers of [1, 100], a recall layout that is a
    permutation of them with one element replaced by a number of [1, 100]
    they do not have, and [changedTileIndex] the position of that number. *)
Theorem reachable_round (s : session) (w : world) :
  reachable (s, w) ->
  grid_shown (gameState s) = true ->
  exists n : Z,
    numTiles s = Some n /\
    round_ok n (deref (originalGridNumbers s) w)
      (deref (preparedRecallNumbers s) w) (changedTileIndex s).
Proof.
  intros (_ & _ & _ & Hround & _)%reachable_page_inv Hgrid.
  destruct (numTiles s) as [n|].
  - by exists n.
  - destruct Hround as [Hnone _]. congruence.
Qed.

(** X13. While the grid is shown it has [numTiles] cells and each shows a
    number of [1, 100]: the original numbers, in their order, during the
    memorize phase, and the recall layout from the recall phase on. *)
Theorem reachable_grid (s : session) (w : world) :
  reachable (s, w) ->
  grid_shown (gameState s) = true ->
  exists n : Z,
    numTiles s = Some n /\
    Z.of_nat (length (renderGrid s w)) = n /\
    (renderGrid s w).*2
    = Some <$> (if bool_decide (gameState s = State.memorize_original)
                then deref (originalGridNumbers s) w
                else deref (preparedRecallNumbers s) w) /\
    Forall (fun c => exists x : Z, c.2 = Some x /\ 1 <= x <= 100)
      (renderGrid s w).
Proof.
  intros (_ & _ & _ & Hround & Hstate)%reachable_page_inv Hgrid.
  destruct (numTiles s) as [n|] eqn:Hn;
    [|destruct Hround as [Hnone _]; congruence].
  exists n. split; [done |].
  pose proof Hround as (Hn4 & Hlen & _ & Hrange & _).
  pose proof (round_ok_recall_length _ _ _ _ Hround) as Hrlen.
  assert (Hshown : exists l : list Z,
            deref (currentGridNumbers s) w = l /\ Z.of_nat (length l) = n /\
            (forall x, x ∈ l -> 1 <= x <= 100) /\
            l = if bool_decide (gameState s = State.memorize_original)
                then deref (originalGridNumbers s) w
                else deref (preparedRecallNumbers s) w).
  { unfold state_inv in Hstate.
    assert (Hrrange : forall x, x ∈ deref (preparedRecallNumbers s) w ->
                        1 <= x <= 100)
      by (intros x; by apply (round_ok_recall_range _ _ _ _ x Hround)).
    destruct (gameState s) eqn:Hg; try done; destruct_and?.
    - exists (deref (originalGridNumbers s) w). by split_and!.
    - exists (deref (preparedRecallNumbers s) w).
      split_and!; [congruence | done | done | done].
    - exists (deref (preparedRecallNumbers s) w).
      split_and!; [congruence | done | done | done].
    - exists (deref (preparedRecallNumbers s) w).
      split_and!; [congruence | done | done | done].
    - exists (deref (preparedRecallNumbers s) w).
      split_and!; [congruence | done | done | done]. }
  destruct Hshown as (l & Hl & Hllen & Hlrange & Hleq).
  assert (Hcells : (renderGrid s w).*2 = Some <$> l).
  { unfold renderGrid. rewrite Hn, Hl. simpl.
    rewrite <- list_fmap_compose, <- Hllen. apply index_seqZ. }
  split_and!.
  - rewrite <- (length_fmap snd), Hcells, length_fmap. done.
  - by rewrite Hcells, Hleq.
  - apply (Forall_fmap snd
             (fun o : option Z => exists x : Z, o = Some x /\ 1 <= x <= 100)).
    rewrite Hcells.
    apply Forall_fmap, Forall_forall. intros x Hx. simpl. eauto.
Qed.

(** X14. In [game_over] the feedback message names the changed number: the
    number at [changedTileIndex] in the recall layout, which the original
    numbers do not have.  It never reads "undefined". *)
Theorem reachable_game_over_message (s : session) (w : world) :
  reachable (s, w) ->
  gameState s = State.game_over ->
  exists ci v : Z,
    changedTileIndex s = Some ci /\
    index (deref (preparedRecallNumbers s) w) ci = Some v /\
    (v ∉ deref (originalGridNumbers s) w) /\
    feedbackMessage s = "Wrong! The changed number was: " +:+ pretty v.
Proof.
  intros (_ & _ & _ & Hround & Hstate)%reachable_page_inv Hg.
  unfold state_inv in Hstate. rewrite Hg in Hstate.
  destruct Hstate as (_ & _ & _ & _ & _ & Hcur & Hmsg).
  destruct (numTiles s) as [n|];
    [|destruct Hround as [Hnone _]; by rewrite Hg in Hnone].
  destruct Hround
    as (_ & _ & _ & _ & _ & ci & v & idx & Hci & _ & Hv & Hnew & _).
  exists ci, v. split_and!; try done.
  rewrite Hmsg. unfold changed_number. by rewrite Hci, Hcur, Hv.
Qed.

(** X15. After a submit the highlights tell the outcome.  The green tile is
    the changed one and no other; a tile is red exactly when the game is
    over and it is the selected one, so no tile is red after a right answer,
    and after a wrong one the red tile is not the green one. *)
Theorem reachable_highlights (s : session) (w : world) (i : Z) :
  reachable (s, w) ->
  round_over (gameState s) = true ->
  (cell_highlight s i = " bg-green-500 text-white animate-pulse"
   <-> changedTileIndex s = Some i) /\
  (cell_highlight s i = " bg-red-500 text-white"
   <-> gameState s = State.game_over /\ selectedTileIndex s = Some i) /\
  (gameState s ≠ State.game_over -> selectedTileIndex s = changedTileIndex s).
Proof.
  intros (_ & _ & _ & _ & Hstate)%reachable_page_inv Hover.
  unfold state_inv in Hstate. unfold cell_highlight.
  destruct (gameState s) eqn:Hg; try done; destruct_and?;
    repeat case_bool_decide; simpl; split_and!; try done;
    try (split; [done | intros; congruence]);
    try (split; [done | intros [? ?]; congruence]);
    try (split; intros; destruct_and?; congruence).
Qed.

(** X16. The modal is closed during the memorize and recall phases and open
    once the round is over, where it offers Home and Next Round after a
    round won, Home alone after the game is won, Home and Try Again after a
    game over. *)
Theorem reachable_modal (s : session) (w : world) :
  reachable (s, w) ->
  (gameState s = State.memorize_original \/
   gameState s = State.odd_one_out_recall -> showModal s = false) /\
  (round_over (gameState s) = true -> showModal s = true) /\
  (gameState s = State.round_win ->
   modalActions s = [homeAction; nextRoundAction]) /\
  (gameState s = State.overall_win -> modalActions s = [homeAction]) /\
  (gameState s = State.game_over ->
   modalActions s = [homeAction; tryAgainAction]).
Proof.
  intros (_ & _ & _ & _ & Hstate)%reachable_page_inv.
  unfold state_inv in Hstate.
  destruct (gameState s) eqn:Hg; simpl; destruct_and?; split_and!;
    try done; intros [? | ?]; done.
Qed.

(** X17. The selection is always a tile of the grid, there is none during
    the memorize phase, and a game is only over with a selection made that
    is not the changed tile. *)
Theorem reachable_selection (s : session) (w : world) :
  reachable (s, w) ->
  (forall i, selectedTileIndex s = Some i ->
     exists n, numTiles s = Some n /\ 0 <= i < n) /\
  (gameState s = State.memorize_original -> selectedTileIndex s = None) /\
  (gameState s = State.game_over ->
   is_Some (selectedTileIndex s) /\
   selectedTileIndex s ≠ changedTileIndex s).
Proof.
  intros (_ & _ & Hsel & _ & Hstate)%reachable_page_inv.
  unfold state_inv in Hstate. split; [done |].
  destruct (gameState s) eqn:Hg; simpl; destruct_and?; split; try done.
  intros _. split; [|done]. by destruct (selectedTileIndex s).
Qed.

End Invariant.

(** X18. With a count of 100 or more the draw takes the whole pool, no
    candidate can be new, and the setup does not return, however long its
    loop is run. *)
Theorem setupOddOneOutRound_never_returns `{SortEngine} (fuel : nat)
    (count : Z) (s : session) (w : world) :
  100 <= count -> setupOddOneOutRound fuel count s w = None.
Proof. apply setupOddOneOutRound_full_pool. Qed.

(** ** The further properties on sample runs *)

Lemma setupOddOneOutRound_recall_distinct_witness :
  exists rl s' w',
    @setupOddOneOutRound insertion_engine 5 4 Sample.mounted.1
      Sample.mounted.2 = Some (rl, s', w') /\
    NoDup (deref (preparedRecallNumbers s') w').
Proof.
  eexists _, _, _. split; [vm_compute; reflexivity |].
  eapply (setupOddOneOutRound_recall_distinct (H := insertion_engine) 5 4
            Sample.mounted.1 Sample.mounted.2).
  vm_compute; reflexivity.
Defined.

Lemma setupOddOneOutRound_one_answer_witness :
  exists rl s' w',
    @setupOddOneOutRound insertion_engine 5 4 Sample.mounted.1
      Sample.mounted.2 = Some (rl, s', w') /\
    index (deref (preparedRecallNumbers s') w') 3 = Some 76 /\
    (76 ∉ deref (originalGridNumbers s') w') /\
    changedTileIndex s' = Some 3.
Proof.
  eexists _, _, _. split; [vm_compute; reflexivity |].
  split; [vm_compute; reflexivity |].
  assert (76 ∉ [3; 100; 99; 98]) as Hnew
    by (intros Hin; repeat (apply elem_of_cons in Hin as [Heq | Hin];
          [discriminate Heq |]); by apply elem_of_nil in Hin).
  split; [exact Hnew |].
  eapply (setupOddOneOutRound_one_answer (H := insertion_engine) 5 4
            Sample.mounted.1 Sample.mounted.2 _ _ _ 3 76);
    [vm_compute; reflexivity | vm_compute; reflexivity | exact Hnew].
Defined.

Lemma setupOddOneOutRound_replaced_gone_witness :
  exists rl s' w',
    1 <= 4 /\
    @setupOddOneOutRound insertion_engine 5 4 Sample.mounted.1
      Sample.mounted.2 = Some (rl, s', w') /\
    exists old : Z,
      index (deref (originalGridNumbers s') w') (originalIndexToChange rl)
      = Some old /\
      (old ∉ deref (preparedRecallNumbers s') w').
Proof.
  eexists _, _, _. split; [lia |]. split; [vm_compute; reflexivity |].
  destruct (setupOddOneOutRound_replaced_gone (H := insertion_engine) 5 4
              Sample.mounted.1 Sample.mounted.2 _ _ _ ltac:(lia)
              ltac:(vm_compute; reflexivity)) as (old & Hold & Hgone & _).
  by exists old.
Defined.


Lemma setupOddOneOutRound_never_returns_witness :
  100 <= 100 /\
  @setupOddOneOutRound insertion_engine 7 100 Sample.mounted.1
    Sample.mounted.2 = None.
Proof.
  split; [lia |].
  apply (setupOddOneOutRound_never_returns (H := insertion_engine) 7 100
           Sample.mounted.1 Sample.mounted.2).
  lia.
Defined.


Lemma handleNumTilesSelect_shows_count_witness :
  exists s' w',
    0 <= 4 /\
    @handleNumTilesSelect insertion_engine 5 4 Sample.mounted.1
      Sample.mounted.2 = Some (s', w') /\
    Z.of_nat (length (deref (currentGridNumbers s') w')) = 4.
Proof.
  eexists _, _. split; [lia |]. split; [vm_compute; reflexivity |].
  eapply (handleNumTilesSelect_shows_count (H := insertion_engine) 5 4
            Sample.mounted.1 Sample.mounted.2); [lia |].
  vm_compute; reflexivity.
Defined.

(** The pages the two sample games end on. *)
Lemma reachable_round_won (a : session * world) :
  run (H := insertion_engine) 5 SamplePage.round_won Sample.mounted = Some a ->
  reachable (H := insertion_engine) a.
Proof.
  apply run_reachable. apply (reachable_mount Sample.fresh_world).
Qed.

Lemma reachable_round_lost (a : session * world) :
  run (H := insertion_engine) 5 SamplePage.round_lost Sample.mounted = Some a ->
  reachable (H := insertion_engine) a.
Proof.
  apply run_reachable. apply (reachable_mount Sample.fresh_world).
Qed.

Lemma reachable_score_witness :
  exists s w,
    run (H := insertion_engine) 5 SamplePage.round_won Sample.mounted
    = Some (s, w) /\
    gameState s = State.round_win /\ 20 <= totalScore s <= 80.
Proof.
  eexists _, _. split; [vm_compute; reflexivity |]. split; [reflexivity |].
  eapply (reachable_score (H := insertion_engine)); [|reflexivity].
  apply reachable_round_won. vm_compute; reflexivity.
Defined.

Lemma reachable_numTiles_witness :
  exists s w,
    run (H := insertion_engine) 5 SamplePage.round_won Sample.mounted
    = Some (s, w) /\
    is_Some (numTiles s).
Proof.
  eexists _, _. split; [vm_compute; reflexivity |].
  eapply (reachable_numTiles (H := insertion_engine)); [|reflexivity].
  apply reachable_round_won. vm_compute; reflexivity.
Defined.

Lemma reachable_round_witness :
  exists s w n,
    run (H := insertion_engine) 5 SamplePage.round_lost Sample.mounted
    = Some (s, w) /\
    grid_shown (gameState s) = true /\
    numTiles s = Some n /\
    round_ok n (deref (originalGridNumbers s) w)
      (deref (preparedRecallNumbers s) w) (changedTileIndex s).
Proof.
  eexists _, _, 4. split; [vm_compute; reflexivity |]. split; [reflexivity |].
  edestruct (reachable_round (H := insertion_engine)) as (n & Hn & Hok);
    [apply reachable_round_lost; vm_compute; reflexivity | reflexivity |].
  split; [reflexivity |]. injection Hn as <-. exact Hok.
Defined.

Lemma reachable_grid_witness :
  exists s w n,
    run (H := insertion_engine) 5 SamplePage.round_lost Sample.mounted
    = Some (s, w) /\
    grid_shown (gameState s) = true /\
    numTiles s = Some n /\
    Z.of_nat (length (renderGrid s w)) = n.
Proof.
  eexists _, _, 4. split; [vm_compute; reflexivity |]. split; [reflexivity |].
  edestruct (reachable_grid (H := insertion_engine)) as (n & Hn & Hlen & _);
    [apply reachable_round_lost; vm_compute; reflexivity | reflexivity |].
  split; [reflexivity |]. injection Hn as <-. exact Hlen.
Defined.

Lemma reachable_game_over_message_witness :
  exists (s : session) (w : world) (ci v : Z),
    run (H := insertion_engine) 5 SamplePage.round_lost Sample.mounted
    = Some (s, w) /\
    gameState s = State.game_over /\
    changedTileIndex s = Some ci /\
    feedbackMessage s = "Wrong! The changed number was: " +:+ pretty v.
Proof.
  edestruct (reachable_game_over_message (H := insertion_engine))
    as (ci & v & Hci & _ & _ & Hmsg);
    [apply reachable_round_lost; vm_compute; reflexivity | reflexivity |].
  eexists _, _, ci, v. split; [vm_compute; reflexivity |].
  split; [reflexivity |]. split; [exact Hci | exact Hmsg].
Defined.

Lemma reachable_highlights_witness :
  exists s w,
    run (H := insertion_engine) 5 SamplePage.round_lost Sample.mounted
    = Some (s, w) /\
    round_over (gameState s) = true /\
    (cell_highlight s 0 = " bg-red-500 text-white"
     <-> gameState s = State.game_over /\ selectedTileIndex s = Some 0).
Proof.
  eexists _, _. split; [vm_compute; reflexivity |]. split; [reflexivity |].
  eapply (reachable_highlights (H := insertion_engine)); [|reflexivity].
  apply reachable_round_lost. vm_compute; reflexivity.
Defined.

Lemma reachable_modal_witness :
  exists s w,
    run (H := insertion_engine) 5 SamplePage.round_won Sample.mounted
    = Some (s, w) /\
    (gameState s = State.round_win ->
     modalActions s = [homeAction; nextRoundAction]).
Proof.
  eexists _, _. split; [vm_compute; reflexivity |].
  eapply (reachable_modal (H := insertion_engine)).
  apply reachable_round_won. vm_compute; reflexivity.
Defined.

Lemma reachable_selection_witness :
  exists s w,
    run (H := insertion_engine) 5 SamplePage.round_lost Sample.mounted
    = Some (s, w) /\
    (gameState s = State.game_over ->
     is_Some (selectedTileIndex s) /\
     selectedTileIndex s ≠ changedTileIndex s).
Proof.
  eexists _, _. split; [vm_compute; reflexivity |].
  eapply (reachable_selection (H := insertion_engine)).
  apply reachable_round_lost. vm_compute; reflexivity.
Defined.

(** ** Arrays are never changed once built *)

Section Frame.

Context `{SortEngine}.

Lemma handleNextRoundOrTryAgain_heap (fuel : nat) (s : session) (w : world)
    (s' : session) (w' : world) :
  handleNextRoundOrTryAgain fuel s w = Some (s', w') ->
  w' = w \/ exists k, length k = 5%nat /\ heap w' = heap w ++ k.
Proof.
  unfold handleNextRoundOrTryAgain. simpl.
  destruct (numTiles s) as [n|]; [|intros [= <- <-]; by left].
  destruct (setupOddOneOutRound fuel n _ w)
    as [[[rl s1] w1]|] eqn:Hsetup; [|done].
  simpl. intros [= <- <-]. right.
  apply setupOddOneOutRound_Some in Hsetup
    as (rv & _ & _ & _ & _ & _ & _ & _ & _ & ->).
  eexists. split; last reflexivity. reflexivity.
Qed.

(** X19. No event changes an array that exists: a step leaves the heap as
    it is, or (when it builds a round) adds five new arrays after the ones
    that were there.  The numbers of a round, once stored, stay what they
    are. *)
Theorem step_keeps_arrays (fuel : nat) (e : event) (s : session) (w : world)
    (s' : session) (w' : world) :
  step fuel e (s, w) = Some (s', w') ->
  (forall l : loc, (l < length (heap w))%nat -> deref l w' = deref l w) /\
  (heap w' = heap w \/ length (heap w') = (length (heap w) + 5)%nat).
Proof.
  intros Hstep.
  assert (Hheap : w' = w \/ exists k, length k = 5%nat /\ heap w' = heap w ++ k).
  { revert Hstep. unfold step. destruct (rendered e s); [|done].
    destruct e as [| | | | | | | | |[| |]]; simpl;
      try (intros [= <- <-]; by left).
    - unfold handleNumTilesSelect.
      destruct (setupOddOneOutRound fuel count _ w)
        as [[[rl s1] w1]|] eqn:Hsetup; [|done].
      simpl. intros [= <- <-]. right.
      apply setupOddOneOutRound_Some in Hsetup
        as (rv & _ & _ & _ & _ & _ & _ & _ & _ & ->).
      eexists. split; last reflexivity. reflexivity.
    - destruct (handleNextRoundOrTryAgain fuel s w) as [[s1 w1]|] eqn:Hnext;
        [|done].
      simpl. intros [= <- <-]. by eapply handleNextRoundOrTryAgain_heap.
    - destruct (handleNextRoundOrTryAgain fuel s w) as [[s1 w1]|] eqn:Hnext;
        [|done].
      simpl. intros [= <- <-]. by eapply handleNextRoundOrTryAgain_heap.
    - destruct (handleNextRoundOrTryAgain fuel s w) as [[s1 w1]|] eqn:Hnext;
        [|done].
      simpl. intros [= <- <-]. by eapply handleNextRoundOrTryAgain_heap. }
  destruct Hheap as [-> | (k & Hk & Hheap)].
  - split; [done | by left].
  - split.
    + intros l Hl. unfold deref. by rewrite Hheap, lookup_app_l.
    + right. rewrite Hheap, length_app. lia.
Qed.

End Frame.

Lemma step_keeps_arrays_witness :
  exists s' w',
    step (H := insertion_engine) 5 NextOrTryAgainButton
      (setGameState State.game_over (Sample.recall_session 40 (Some 1)),
       Sample.recall_world) = Some (s', w') /\
    deref 0%nat w' = [3; 17; 42; 88] /\
    length (heap w') = 8%nat.
Proof.
  eexists _, _. split; [vm_compute; reflexivity |].
  destruct (step_keeps_arrays (H := insertion_engine) 5 NextOrTryAgainButton
              (setGameState State.game_over
                 (Sample.recall_session 40 (Some 1)))
              Sample.recall_world _ _ ltac:(vm_compute; reflexivity))
    as [Hold Hnew].
  split; [apply (Hold 0%nat); simpl; lia | reflexivity].
Defined.
